(** * evmone: basic-block analysis and the execute driver

    A shallow embedding of [lib/evmone/analysis.hpp], [lib/evmone/analysis.cpp]
    and [lib/evmone/execution.cpp].

    Conventions of the embedding:
    - a byte of code is a [Byte.byte]; the code buffer is a [list byte];
    - a pointer into the code buffer is the offset from [code] (a [Z]); the
      range [code_pos, code_end) is carried as the list of bytes still to read;
    - fixed-width integers are [Z] with the wrap-around of their width written
      out ([to_int], [to_uint]);
    - [std::vector] is [list]; [emplace_back] appends at the end and the
      indexed store [instrs[i].arg.block = b] is stdpp's [alter];
    - a function pointer [instruction_exec_fn] is a value of an abstract type;
      calling through it is a separate map from pointers to behaviours. *)

From Stdlib Require Import ZArith Lia.
From Stdlib.Strings Require Import Byte.
From stdpp Require Import base tactics option list sorting.

Local Open Scope Z_scope.

(** ** Fixed-width integers *)

(** Value of [x] after conversion to a signed integer of [w] bits. *)
Definition to_int (w : Z) (x : Z) : Z :=
  (x + 2 ^ (w - 1)) mod 2 ^ w - 2 ^ (w - 1).

(** Value of [x] after conversion to an unsigned integer of [w] bits. *)
Definition to_uint (w : Z) (x : Z) : Z := x mod 2 ^ w.

Definition int16_max : Z := 32767.
Definition uint32_max : Z := 4294967295.

(** [template <typename To, typename T> To clamp(T x)]:
    [x <= max ? static_cast<To>(x) : max], with [max] the largest value of
    [To] and [cast] the conversion to [To]. *)
Definition clamp (max : Z) (cast : Z -> Z) (x : Z) : Z :=
  if x <=? max then cast x else max.

Definition clamp_uint32 : Z -> Z := clamp uint32_max (to_uint 32).
Definition clamp_int16 : Z -> Z := clamp int16_max (to_int 16).

(** ** Opcodes *)

Definition opcode_value (op : byte) : Z := Z.of_N (Byte.to_N op).

Definition OP_STOP : byte := x00.
Definition OP_SSTORE : byte := x55.
Definition OP_JUMP : byte := x56.
Definition OP_JUMPI : byte := x57.
Definition OP_PC : byte := x58.
Definition OP_GAS : byte := x5a.
Definition OP_JUMPDEST : byte := x5b.
Definition OP_PUSH1 : byte := x60.
Definition OP_PUSH8 : byte := x67.
Definition OP_PUSH9 : byte := x68.
Definition OP_PUSH32 : byte := x7f.
Definition OP_CREATE : byte := xf0.
Definition OP_CALL : byte := xf1.
Definition OP_CALLCODE : byte := xf2.
Definition OP_RETURN : byte := xf3.
Definition OP_DELEGATECALL : byte := xf4.
Definition OP_CREATE2 : byte := xf5.
Definition OP_STATICCALL : byte := xfa.
Definition OP_REVERT : byte := xfd.
Definition OP_SELFDESTRUCT : byte := xff.

(** [enum intrinsic_opcodes { OPX_BEGINBLOCK = OP_JUMPDEST }]. *)
Definition OPX_BEGINBLOCK : byte := OP_JUMPDEST.

Definition is_opcode (op c : byte) : bool := opcode_value op =? opcode_value c.

(** The case labels of the [switch (opcode)] in [analyze]. *)
Inductive opcode_case : Type :=
| case_terminator
| case_small_push
| case_large_push
| case_gas_number
| case_pc
| case_default.

(** Modelled from the spec: the macros [ANY_SMALL_PUSH] (PUSH1..PUSH8) and
    [ANY_LARGE_PUSH] (PUSH9..PUSH32) of [opcodes_helpers.h], which is not among
    the sources. The other labels are the ones written in the switch. *)
Definition switch_case (op : byte) : opcode_case :=
  let v := opcode_value op in
  if is_opcode op OP_JUMP || is_opcode op OP_JUMPI || is_opcode op OP_STOP
     || is_opcode op OP_RETURN || is_opcode op OP_REVERT
     || is_opcode op OP_SELFDESTRUCT then case_terminator
  else if (opcode_value OP_PUSH1 <=? v) && (v <=? opcode_value OP_PUSH8)
  then case_small_push
  else if (opcode_value OP_PUSH9 <=? v) && (v <=? opcode_value OP_PUSH32)
  then case_large_push
  else if is_opcode op OP_GAS || is_opcode op OP_CALL || is_opcode op OP_CALLCODE
     || is_opcode op OP_DELEGATECALL || is_opcode op OP_STATICCALL
     || is_opcode op OP_CREATE || is_opcode op OP_CREATE2
     || is_opcode op OP_SSTORE then case_gas_number
  else if is_opcode op OP_PC then case_pc
  else case_default.

(** ** Data model of [analysis.hpp] *)

Module block_info.
Record t : Type := mk {
  gas_cost : Z;          (* uint32_t *)
  stack_req : Z;         (* int16_t *)
  stack_max_growth : Z   (* int16_t *)
}.
End block_info.

(** [union instruction_argument]: the member last written is the tag.
    [push_value] is a pointer into the code buffer, kept as an offset. The
    default member initializer makes [block{}] the initial member. *)
Inductive instruction_argument : Type :=
| arg_number (number : Z)
| arg_push_value (push_value : Z)
| arg_small_push_value (small_push_value : Z)
| arg_block (block : block_info.t).

Definition arg_default : instruction_argument :=
  arg_block (block_info.mk 0 0 0).

Module op_table_entry.
Record t (F : Type) : Type := mk {
  fn : F;
  gas_cost : Z;      (* int16_t *)
  stack_req : Z;     (* int8_t *)
  stack_change : Z   (* int8_t *)
}.
Arguments mk {F} _ _ _ _.
Arguments fn {F} _.
Arguments gas_cost {F} _.
Arguments stack_req {F} _.
Arguments stack_change {F} _.
End op_table_entry.

(** [using op_table = std::array<op_table_entry, 256>], indexed by a byte. *)
Definition op_table (F : Type) : Type := byte -> op_table_entry.t F.

Module instruction.
Record t (F : Type) : Type := mk {
  fn : F;
  arg : instruction_argument
}.
Arguments mk {F} _ _.
Arguments fn {F} _.
Arguments arg {F} _.

(** [explicit constexpr instruction(instruction_exec_fn f) : fn{f}, arg{}]. *)
Definition make {F : Type} (f : F) : t F := mk f arg_default.

(** The store [instr.arg.member = value]. *)
Definition set_arg {F : Type} (a : instruction_argument) (i : t F) : t F :=
  mk (fn i) a.
End instruction.

Module code_analysis.
Record t (F : Type) : Type := mk {
  instrs : list (instruction.t F);
  code_end : Z;
  jumpdest_offsets : list Z;   (* std::vector<int32_t> *)
  jumpdest_targets : list Z    (* std::vector<int32_t> *)
}.
Arguments mk {F} _ _ _ _.
Arguments instrs {F} _.
Arguments code_end {F} _.
Arguments jumpdest_offsets {F} _.
Arguments jumpdest_targets {F} _.
End code_analysis.

(** ** [analysis.cpp] *)

Module block_analysis.
Record t : Type := mk {
  gas_cost : Z;            (* int64_t *)
  stack_req : Z;           (* int *)
  stack_max_growth : Z;    (* int *)
  stack_change : Z;        (* int *)
  begin_block_index : nat  (* size_t *)
}.

(** [explicit block_analysis(size_t index)]. *)
Definition make (index : nat) : t := mk 0 0 0 0 index.

(** [block_info close() const]. *)
Definition close (b : t) : block_info.t :=
  block_info.mk (clamp_uint32 (gas_cost b))
                (clamp_int16 (stack_req b))
                (clamp_int16 (stack_max_growth b)).
End block_analysis.

Section Analyze.
Context {F : Type}.

(** [v.emplace_back(x)]. *)
Definition emplace_back {A : Type} (x : A) (v : list A) : list A := v ++ [x].

(** [auto& instr = analysis.instrs.back(); instr.arg.member = value]. *)
Definition back_set_arg (a : instruction_argument)
    (instrs : list (instruction.t F)) : list (instruction.t F) :=
  alter (instruction.set_arg a) (Nat.pred (length instrs)) instrs.

Definition with_instrs (f : list (instruction.t F) -> list (instruction.t F))
    (a : code_analysis.t F) : code_analysis.t F :=
  code_analysis.mk (f (code_analysis.instrs a)) (code_analysis.code_end a)
    (code_analysis.jumpdest_offsets a) (code_analysis.jumpdest_targets a).

(** The two [emplace_back]s of the [OP_JUMPDEST] branch. *)
Definition add_jumpdest (offset target : Z) (a : code_analysis.t F)
    : code_analysis.t F :=
  code_analysis.mk (code_analysis.instrs a) (code_analysis.code_end a)
    (emplace_back offset (code_analysis.jumpdest_offsets a))
    (emplace_back target (code_analysis.jumpdest_targets a)).

(** [static_cast<size_t>(opcode - OP_PUSH1) + 1]. *)
Definition push_size (opcode : byte) : nat :=
  (Z.to_nat (opcode_value opcode - opcode_value OP_PUSH1) + 1)%nat.

(** The inner loop of the small push case, over the bytes of
    [code_pos, push_end):
    [value |= uint64_t{*code_pos++} << insert_bit_pos; insert_bit_pos -= 8]. *)
Fixpoint read_small_push (bytes : list byte) (insert_bit_pos : Z) (value : Z)
    : Z :=
  match bytes with
  | [] => value
  | b :: bytes' =>
      read_small_push bytes' (to_uint 64 (insert_bit_pos - 8))
        (Z.lor value (to_uint 64 (Z.shiftl (opcode_value b) insert_bit_pos)))
  end.

(** The accumulator updates at the head of the loop body. *)
Definition account (info : op_table_entry.t F) (block : block_analysis.t)
    : block_analysis.t :=
  let stack_req :=
    Z.max (block_analysis.stack_req block)
          (to_int 32 (op_table_entry.stack_req info
                      - block_analysis.stack_change block)) in
  let stack_change :=
    to_int 32 (block_analysis.stack_change block
               + op_table_entry.stack_change info) in
  let stack_max_growth :=
    Z.max (block_analysis.stack_max_growth block) stack_change in
  let gas_cost :=
    to_int 64 (block_analysis.gas_cost block + op_table_entry.gas_cost info) in
  block_analysis.mk gas_cost stack_req stack_max_growth stack_change
    (block_analysis.begin_block_index block).

(** State of the [while (code_pos != code_end)] loop: [code_pos] as an
    offset, the bytes of [code_pos, code_end), the open block and the
    analysis built so far. *)
Record loop_state : Type := mk_loop_state {
  ls_code_pos : Z;
  ls_rest : list byte;
  ls_block : block_analysis.t;
  ls_analysis : code_analysis.t F
}.

(** "Save current block": [analysis.instrs[block.begin_block_index].arg.block
    = block.close()]. *)
Definition save_block (block : block_analysis.t) (a : code_analysis.t F)
    : code_analysis.t F :=
  with_instrs
    (alter (instruction.set_arg (arg_block (block_analysis.close block)))
           (block_analysis.begin_block_index block)) a.

(** The tail of the loop body: the block is closed and a new one created
    after a terminator or before a JUMPDEST. *)
Definition maybe_close (op_tbl : op_table F) (is_terminator : bool)
    (s : loop_state) : loop_state :=
  let next_is_jumpdest :=
    match ls_rest s with
    | [] => false
    | next :: _ => is_opcode next OP_JUMPDEST
    end in
  if is_terminator || next_is_jumpdest then
    let a := save_block (ls_block s) (ls_analysis s) in
    let a := with_instrs
               (emplace_back
                  (instruction.make (op_table_entry.fn (op_tbl OPX_BEGINBLOCK))))
               a in
    mk_loop_state (ls_code_pos s) (ls_rest s)
      (block_analysis.make (length (code_analysis.instrs a) - 1)%nat) a
  else s.

(** One iteration of the loop in [analyze]; [opcode] is [*code_pos],
    [code_pos] the offset it was read from and [rest] the bytes after it. *)
Definition analyze_iteration (op_tbl : op_table F) (opcode : byte)
    (code_pos : Z) (rest : list byte)
    (block : block_analysis.t) (analysis : code_analysis.t F) : loop_state :=
  let code_end := code_analysis.code_end analysis in
  let code_pos := code_pos + 1 in
  let opcode_info := op_tbl opcode in
  let block := account opcode_info block in
  let analysis :=
    if is_opcode opcode OP_JUMPDEST then
      add_jumpdest (to_int 32 (code_pos - 1))
        (to_int 32 (Z.of_nat (length (code_analysis.instrs analysis)) - 1))
        analysis
    else
      with_instrs
        (emplace_back (instruction.make (op_table_entry.fn opcode_info)))
        analysis in
  match switch_case opcode with
  | case_terminator =>
      maybe_close op_tbl true (mk_loop_state code_pos rest block analysis)
  | case_small_push =>
      let bytes := take (push_size opcode) rest in
      let value :=
        read_small_push bytes (Z.of_nat (push_size opcode - 1) * 8) 0 in
      maybe_close op_tbl false
        (mk_loop_state (code_pos + Z.of_nat (length bytes))
           (drop (push_size opcode) rest) block
           (with_instrs (back_set_arg (arg_small_push_value value)) analysis))
  | case_large_push =>
      let analysis :=
        with_instrs (back_set_arg (arg_push_value code_pos)) analysis in
      let code_pos' := code_pos + Z.of_nat (push_size opcode) in
      maybe_close op_tbl false
        (mk_loop_state (if code_pos' >? code_end then code_end else code_pos')
           (drop (push_size opcode) rest) block analysis)
  | case_gas_number =>
      maybe_close op_tbl false
        (mk_loop_state code_pos rest block
           (with_instrs
              (back_set_arg (arg_number (block_analysis.gas_cost block)))
              analysis))
  | case_pc =>
      maybe_close op_tbl false
        (mk_loop_state code_pos rest block
           (with_instrs (back_set_arg (arg_number (code_pos - 1))) analysis))
  | case_default =>
      maybe_close op_tbl false (mk_loop_state code_pos rest block analysis)
  end.

(** The [while (code_pos != code_end)] loop; every iteration reads at least
    one byte, so [length rest] iterations suffice. *)
Fixpoint analyze_loop (op_tbl : op_table F) (fuel : nat) (s : loop_state)
    : loop_state :=
  match fuel with
  | O => s
  | S fuel' =>
      match ls_rest s with
      | [] => s
      | opcode :: rest =>
          analyze_loop op_tbl fuel'
            (analyze_iteration op_tbl opcode (ls_code_pos s) rest
               (ls_block s) (ls_analysis s))
      end
  end.

(** [code_analysis analyze(const op_table& op_tbl, code, code_size)]: the
    body of [analyze] once the table of the revision is fetched. *)
Definition analyze_with (op_tbl : op_table F) (code : list byte)
    : code_analysis.t F :=
  let opx_beginblock_fn := op_table_entry.fn (op_tbl OPX_BEGINBLOCK) in
  let analysis :=
    code_analysis.mk [instruction.make opx_beginblock_fn]
      (Z.of_nat (length code)) [] [] in
  let s := analyze_loop op_tbl (length code)
             (mk_loop_state 0 code (block_analysis.make 0) analysis) in
  let analysis := save_block (ls_block s) (ls_analysis s) in
  with_instrs
    (emplace_back (instruction.make (op_table_entry.fn (op_tbl OP_STOP))))
    analysis.

Context {evmc_revision : Type}.

(** [code_analysis analyze(evmc_revision rev, const uint8_t* code,
    size_t code_size)]; [get_op_table] is declared in [analysis.hpp] and
    defined outside the sources, so it is a parameter. *)
Definition analyze (get_op_table : evmc_revision -> op_table F)
    (rev : evmc_revision) (code : list byte) : code_analysis.t F :=
  analyze_with (get_op_table rev) code.

(** [find_jumpdest] of [analysis.hpp]. [std::lower_bound] halves the
    range [first, first + len): with [half = len / 2], it continues in
    the upper part when [*(first + half) < value] and in the lower part
    otherwise. [find_jumpdest] reads [jumpdest_targets] unchecked at the
    position found in [jumpdest_offsets]; the total lookup stands for that
    read where the position is in range, which the theorems on
    [find_jumpdest] establish or assume. *)
Fixpoint lower_bound (fuel : nat) (v : list Z) (first len : nat) (value : Z)
    : nat :=
  match fuel with
  | O => first
  | S fuel' =>
      if (0 <? len)%nat then
        let half := (len / 2)%nat in
        let middle := (first + half)%nat in
        if v !!! middle <? value
        then lower_bound fuel' v (middle + 1) (len - half - 1) value
        else lower_bound fuel' v first half value
      else first
  end.

Definition find_jumpdest (analysis : code_analysis.t F) (offset : Z) : Z :=
  let offsets := code_analysis.jumpdest_offsets analysis in
  let it := lower_bound (length offsets) offsets 0 (length offsets) offset in
  if negb (it =? length offsets)%nat && (offsets !!! it =? offset)
  then code_analysis.jumpdest_targets analysis !!! it
  else -1.
End Analyze.

(** ** [execution.cpp] *)

(** Modelled from the spec: the status codes of its error taxonomy
    ([evmc_status_code] is declared by EVMC, outside the sources). *)
Inductive evmc_status_code : Type :=
| EVMC_SUCCESS
| EVMC_FAILURE
| EVMC_REVERT
| EVMC_OUT_OF_GAS
| EVMC_INVALID_INSTRUCTION
| EVMC_UNDEFINED_INSTRUCTION
| EVMC_STACK_OVERFLOW
| EVMC_STACK_UNDERFLOW
| EVMC_BAD_JUMP_DESTINATION.

(** Modelled from the spec: the part of [evmc_message] that the driver and
    the block prologue read. *)
Module evmc_message.
Record t : Type := mk { gas : Z (* int64_t *) }.
End evmc_message.

(** [struct execution_state : ExecutionState] of [analysis.hpp]. Modelled
    from the spec: the members of the base class [ExecutionState]
    ([execution_state.hpp] is not among the sources) that [execute] and the
    block prologue read: gas counter, status, stack, memory with its
    used-memory figure, and the output slice. The [analysis] pointer is the
    analysis passed along with the state. *)
Module execution_state.
Record t : Type := mk {
  gas_left : Z;                (* int64_t *)
  stack : list Z;
  memory : list byte;
  used_memory : Z;
  status : evmc_status_code;
  output_offset : nat;
  output_size : nat;
  current_block_cost : Z       (* uint32_t *)
}.

(** Modelled from the spec: a fresh state for a message; the gas counter
    starts at the gas of the message. *)
Definition make (msg : evmc_message.t) : t :=
  mk (evmc_message.gas msg) [] [] 0 EVMC_SUCCESS 0 0 0.

Definition with_status (s : evmc_status_code) (st : t) : t :=
  mk (gas_left st) (stack st) (memory st) (used_memory st) s
     (output_offset st) (output_size st) (current_block_cost st).

(** [const instruction* exit(evmc_status_code status_code)]:
    [status = status_code; return nullptr]. A pointer to an instruction is
    its index in [instrs]; [nullptr] is [None]. *)
Definition exit (status_code : evmc_status_code) (st : t) : option nat * t :=
  (None, with_status status_code st).
End execution_state.

Module evmc_result.
Record t : Type := mk {
  status_code : evmc_status_code;
  gas_left : Z;
  output_data : list byte;
  padding : Z   (* the four bytes holding used_memory *)
}.
End evmc_result.

Section Execute.
Context {F : Type} {evmc_revision : Type}.

(** The behaviour of a call through a function pointer:
    [instr->fn(instr, *state)] with [instr = &analysis.instrs[i]] returns
    the next instruction pointer and the state it leaves. *)
Definition handler_semantics : Type :=
  F -> code_analysis.t F -> nat -> execution_state.t ->
  option nat * execution_state.t.

(** [while (instr != nullptr) instr = instr->fn(instr, *state);]
    [None] stands for a run that is not over after [fuel] calls, or that
    follows a pointer outside [instrs]. *)
Fixpoint dispatch (call : handler_semantics) (analysis : code_analysis.t F)
    (fuel : nat) (instr : option nat) (state : execution_state.t)
    : option execution_state.t :=
  match instr with
  | None => Some state
  | Some i =>
      match fuel with
      | O => None
      | S fuel' =>
          match code_analysis.instrs analysis !! i with
          | None => None
          | Some ins =>
              let '(next, state') :=
                call (instruction.fn ins) analysis i state in
              dispatch call analysis fuel' next state'
          end
      end
  end.

(** The result assembly at the end of [execute]. *)
Definition make_result (state : execution_state.t) : evmc_result.t :=
  let gas_left :=
    match execution_state.status state with
    | EVMC_SUCCESS | EVMC_REVERT => execution_state.gas_left state
    | _ => 0
    end in
  evmc_result.mk (execution_state.status state) gas_left
    (take (execution_state.output_size state)
       (drop (execution_state.output_offset state)
          (execution_state.memory state)))
    (to_uint 32 (execution_state.used_memory state)).

(** The final state of the dispatch loop of [execute]. *)
Definition execute_state (call : handler_semantics)
    (get_op_table : evmc_revision -> op_table F) (fuel : nat)
    (rev : evmc_revision) (msg : evmc_message.t) (code : list byte)
    : option execution_state.t :=
  let analysis := analyze get_op_table rev code in
  dispatch call analysis fuel (Some 0%nat) (execution_state.make msg).

(** [evmc_result execute(vm, host, ctx, rev, msg, code, code_size)]. *)
Definition execute (call : handler_semantics)
    (get_op_table : evmc_revision -> op_table F) (fuel : nat)
    (rev : evmc_revision) (msg : evmc_message.t) (code : list byte)
    : option evmc_result.t :=
  make_result <$> execute_state call get_op_table fuel rev msg code.

(** *** Handlers *)

(** The [block] member of an argument. *)
Definition arg_block_of (a : instruction_argument) : block_info.t :=
  match a with
  | arg_block b => b
  | _ => block_info.mk 0 0 0
  end.

(** Modelled from the spec: the BEGINBLOCK handler ([instructions.cpp] is
    not among the sources). It checks gas, then the stack requirement,
    then the stack limit of 1024, then deducts the block cost, stores it
    in [current_block_cost] and returns [instr + 1]. *)
Definition opx_beginblock (analysis : code_analysis.t F) (i : nat)
    (state : execution_state.t) : option nat * execution_state.t :=
  let block :=
    match code_analysis.instrs analysis !! i with
    | Some ins => arg_block_of (instruction.arg ins)
    | None => block_info.mk 0 0 0
    end in
  let size := Z.of_nat (length (execution_state.stack state)) in
  if execution_state.gas_left state <? block_info.gas_cost block then
    execution_state.exit EVMC_OUT_OF_GAS state
  else if size <? block_info.stack_req block then
    execution_state.exit EVMC_STACK_UNDERFLOW state
  else if 1024 <? size + block_info.stack_max_growth block then
    execution_state.exit EVMC_STACK_OVERFLOW state
  else
    (Some (i + 1)%nat,
     execution_state.mk
       (execution_state.gas_left state - block_info.gas_cost block)
       (execution_state.stack state) (execution_state.memory state)
       (execution_state.used_memory state) (execution_state.status state)
       (execution_state.output_offset state)
       (execution_state.output_size state)
       (block_info.gas_cost block)).

(** Modelled from the spec: the STOP handler, a normal termination. *)
Definition op_stop (analysis : code_analysis.t F) (i : nat)
    (state : execution_state.t) : option nat * execution_state.t :=
  execution_state.exit EVMC_SUCCESS state.

(** Modelled from the spec: what the JUMP and JUMPI handlers do with a
    destination [offset]: on a hit they return
    [&instrs[jumpdest_targets[index]]], on a miss they terminate with
    [BAD_JUMP_DESTINATION]. *)
Definition jump_to (analysis : code_analysis.t F) (offset : Z)
    (state : execution_state.t) : option nat * execution_state.t :=
  let pc := find_jumpdest analysis offset in
  if pc <? 0 then execution_state.exit EVMC_BAD_JUMP_DESTINATION state
  else (Some (Z.to_nat pc), state).
End Execute.

(** ** Reference view of the code: opcodes, immediates and basic blocks

    The definitions of this part follow the words of the specification, not
    the loop of [analyze]; the theorems compare the two. *)

(** Number of immediate bytes after an opcode: [n] for PUSHn, else none. *)
Definition immediate_size (op : byte) : nat :=
  let v := opcode_value op in
  if (96 <=? v) && (v <=? 127) then Z.to_nat (v - 95) else 0%nat.

(** A real opcode of the code: its offset, the opcode byte and the bytes of
    its immediate that lie before the end of the code. *)
Record op : Type := mk_op {
  op_offset : Z;
  op_code : byte;
  op_imm : list byte
}.

(** The real opcodes of [code], whose first byte is at offset [pos]; the
    first [skip] bytes belong to the immediate of an earlier PUSH. *)
Fixpoint decode_from (skip : nat) (pos : Z) (code : list byte) : list op :=
  match code with
  | [] => []
  | b :: rest =>
      match skip with
      | S skip' => decode_from skip' (pos + 1) rest
      | O =>
          mk_op pos b (take (immediate_size b) rest)
          :: decode_from (immediate_size b) (pos + 1) rest
      end
  end.

Definition decode (code : list byte) : list op := decode_from 0 0 code.

(** For each byte of [code], whether it lies inside a PUSH immediate. *)
Fixpoint push_data_from (skip : nat) (code : list byte) : list bool :=
  match code with
  | [] => []
  | b :: rest =>
      match skip with
      | S skip' => true :: push_data_from skip' rest
      | O => false :: push_data_from (immediate_size b) rest
      end
  end.

Definition in_push_immediate (code : list byte) (i : nat) : bool :=
  push_data_from 0 code !!! i.

(** "No JUMPDEST byte occurs inside a PUSH immediate". *)
Definition no_jumpdest_in_immediates (code : list byte) : Prop :=
  forall i : nat, code !! i = Some OP_JUMPDEST -> in_push_immediate code i = false.

Definition is_jumpdest (o : op) : bool := is_opcode (op_code o) OP_JUMPDEST.

(** [opcode] is one of JUMP, JUMPI, STOP, RETURN, REVERT, SELFDESTRUCT. *)
Definition is_terminator (opcode : byte) : bool :=
  existsb (is_opcode opcode)
    [OP_JUMP; OP_JUMPI; OP_STOP; OP_RETURN; OP_REVERT; OP_SELFDESTRUCT].

Definition starts_with_jumpdest (ops : list op) : bool :=
  match ops with
  | [] => false
  | o :: _ => is_jumpdest o
  end.

(** The basic blocks of a sequence of opcodes: a block ends after a
    terminator and before a JUMPDEST. A code that ends with a terminator has
    an empty last block. *)
Fixpoint basic_blocks (ops : list op) : list (list op) :=
  match ops with
  | [] => [[]]
  | o :: ops' =>
      if is_terminator (op_code o) || starts_with_jumpdest ops'
      then [o] :: basic_blocks ops'
      else match basic_blocks ops' with
           | b :: bs => (o :: b) :: bs
           | [] => [[o]]
           end
  end.

(** Number of instructions that the first [k] opcodes of the block [b]
    have: all but a JUMPDEST. *)
Definition body_index (b : list op) (k : nat) : nat :=
  length (filter (fun o => is_jumpdest o = false) (take k b)).

(** Big-endian value of a sequence of bytes. *)
Definition big_endian (bytes : list byte) : Z :=
  fold_left (fun acc b => acc * 256 + opcode_value b) bytes 0.

(** The immediate of a PUSHn, padded with zero bytes to [n] bytes. *)
Definition padded_immediate (o : op) : list byte :=
  op_imm o ++ replicate (immediate_size (op_code o) - length (op_imm o)) x00.

Section Reference.
Context {F : Type} (op_tbl : op_table F).

(** Sum of the base gas costs of a sequence of opcodes. *)
Definition base_gas (ops : list op) : Z :=
  foldr (fun o acc => op_table_entry.gas_cost (op_tbl (op_code o)) + acc) 0 ops.

(** The accumulator of a block after the opcodes [ops]. *)
Definition summary_from (block : block_analysis.t) (ops : list op)
    : block_analysis.t :=
  fold_left (fun b o => account (op_tbl (op_code o)) b) ops block.

(** The instruction that stands for the opcode [o], [block] being the
    accumulator of its block up to and including [o]. *)
Definition instr_of (block : block_analysis.t) (o : op) : instruction.t F :=
  instruction.mk (op_table_entry.fn (op_tbl (op_code o)))
    match switch_case (op_code o) with
    | case_small_push => arg_small_push_value (big_endian (padded_immediate o))
    | case_large_push => arg_push_value (op_offset o + 1)
    | case_gas_number => arg_number (block_analysis.gas_cost block)
    | case_pc => arg_number (op_offset o)
    | case_terminator | case_default => arg_default
    end.

(** The instructions of the opcodes [ops] of a block whose accumulator is
    [block] before them; a JUMPDEST has no instruction of its own. *)
Fixpoint block_body (block : block_analysis.t) (ops : list op)
    : list (instruction.t F) :=
  match ops with
  | [] => []
  | o :: ops' =>
      let block' := account (op_tbl (op_code o)) block in
      (if is_jumpdest o then [] else [instr_of block' o])
      ++ block_body block' ops'
  end.

Definition beginblock (info : block_info.t) : instruction.t F :=
  instruction.mk (op_table_entry.fn (op_tbl OPX_BEGINBLOCK)) (arg_block info).

(** The instructions of a whole block: its BEGINBLOCK, then its body. *)
Definition block_instrs (b : list op) : list (instruction.t F) :=
  beginblock (block_analysis.close (summary_from (block_analysis.make 0) b))
  :: block_body (block_analysis.make 0) b.

(** The instruction indices recorded for the JUMPDESTs of the blocks
    [blocks], the first of which has its BEGINBLOCK at index [index]. *)
Fixpoint block_targets (index : nat) (blocks : list (list op)) : list Z :=
  match blocks with
  | [] => []
  | b :: blocks' =>
      (if starts_with_jumpdest b then [to_int 32 (Z.of_nat index)] else [])
      ++ block_targets (index + length (block_instrs b)) blocks'
  end.

(** The analysis as the specification describes it, block by block. *)
Definition reference_analysis (code : list byte) : code_analysis.t F :=
  let ops := decode code in
  let blocks := basic_blocks ops in
  code_analysis.mk
    (flat_map block_instrs blocks
     ++ [instruction.make (op_table_entry.fn (op_tbl OP_STOP))])
    (Z.of_nat (length code))
    (map (fun o => to_int 32 (op_offset o))
       (filter (fun o => is_jumpdest o = true) ops))
    (block_targets 0 blocks).

(** The base gas costs of the table are values of [int16_t]. *)
Definition int16_gas_costs : Prop :=
  forall opcode : byte,
    -32768 <= op_table_entry.gas_cost (op_tbl opcode) <= 32767.

(** No base gas cost of the table is negative. *)
Definition nonnegative_gas_costs : Prop :=
  forall opcode : byte, 0 <= op_table_entry.gas_cost (op_tbl opcode).

(** Index in [instrs] of the BEGINBLOCK of block number [j]. *)
Definition begin_index (blocks : list (list op)) (j : nat) : nat :=
  length (flat_map block_instrs (take j blocks)).
End Reference.

(** ** Auxiliary views of the loop, used by the proofs *)

Section Loop_views.
Context {F : Type} (op_tbl : op_table F).

(** What one iteration of the loop records for the opcode [o]: the two
    entries of a JUMPDEST, or the instruction of any other opcode. *)
Definition record_op (block : block_analysis.t) (o : op)
    (a : code_analysis.t F) : code_analysis.t F :=
  if is_jumpdest o then
    add_jumpdest (to_int 32 (op_offset o))
      (to_int 32 (Z.of_nat (length (code_analysis.instrs a)) - 1)) a
  else with_instrs (emplace_back (instr_of op_tbl block o)) a.

(** The statements of [analyze] after its loop. *)
Definition finish (s : loop_state) : code_analysis.t F :=
  with_instrs
    (emplace_back (instruction.make (op_table_entry.fn (op_tbl OP_STOP))))
    (save_block (ls_block s) (ls_analysis s)).

(** The index of the BEGINBLOCK plays no part in the summary of a block. *)
Definition same_counters (b1 b2 : block_analysis.t) : Prop :=
  block_analysis.gas_cost b1 = block_analysis.gas_cost b2
  /\ block_analysis.stack_req b1 = block_analysis.stack_req b2
  /\ block_analysis.stack_max_growth b1 = block_analysis.stack_max_growth b2
  /\ block_analysis.stack_change b1 = block_analysis.stack_change b2.
End Loop_views.

(** The fields of a [block_info] hold values of their types, and the two
    stack fields are not negative. *)
Definition block_info_in_range (info : block_info.t) : Prop :=
  (0 <= block_info.gas_cost info <= uint32_max)
  /\ (0 <= block_info.stack_req info <= int16_max)
  /\ (0 <= block_info.stack_max_growth info <= int16_max).

(** ** Reference view of the stack bookkeeping of a block *)

Section Reference_stack.
Context {F : Type} (op_tbl : op_table F).

(** Sum of the stack changes of a sequence of opcodes: the height of the
    stack after them, relative to the height before them. *)
Definition stack_change_sum (ops : list op) : Z :=
  foldr (fun o acc => op_table_entry.stack_change (op_tbl (op_code o)) + acc)
    0 ops.

(** The stack requirements and stack changes of the table are values of
    [int8_t]. *)
Definition int8_stack_effects : Prop :=
  forall opcode : byte,
    (-128 <= op_table_entry.stack_req (op_tbl opcode) <= 127)
    /\ (-128 <= op_table_entry.stack_change (op_tbl opcode) <= 127).

(** With [height] items on the stack at the entry of the block [b], every
    opcode of the block finds the items it requires. *)
Definition operands_available (b : list op) (height : Z) : Prop :=
  forall (k : nat) (o : op),
    b !! k = Some o ->
    op_table_entry.stack_req (op_tbl (op_code o))
    <= height + stack_change_sum (take k b).

(** With [height] items on the stack at the entry of the block [b], the
    stack never holds more than [limit] items, neither at the entry nor
    after any opcode of the block. *)
Definition within_stack_limit (b : list op) (height limit : Z) : Prop :=
  forall k : nat,
    (k <= length b)%nat -> height + stack_change_sum (take k b) <= limit.
End Reference_stack.

(** ** An instance of the parameters

    The theorems below hold for every opcode table and every handler
    behaviour. To run the model on concrete codes the parameters are
    instantiated here. *)

(** A function pointer is named after the opcode it is registered for. *)
Inductive exec_fn : Type :=
| fn_opcode (opcode : byte)
| fn_undefined.

Inductive revision : Type :=
| EVMC_PETERSBURG
| EVMC_ISTANBUL.

(** Modelled from the spec: an opcode table ([get_op_table] is defined
    outside the sources) with the entries that the examples of this file
    use, taken from the EVM gas schedule: base gas cost, stack requirement
    and stack change. JUMPDEST is the slot of BEGINBLOCK; CHAINID exists
    from Istanbul on; every other opcode resolves to the handler of
    undefined instructions. *)
Definition example_op_table (rev : revision) : op_table exec_fn :=
  fun opcode =>
    let v := opcode_value opcode in
    let entry := op_table_entry.mk (fn_opcode opcode) in
    if v =? 0 then entry 0 0 0                              (* STOP *)
    else if v =? 1 then entry 3 2 (-1)                      (* ADD *)
    else if v =? 70 then                                    (* CHAINID *)
      match rev with
      | EVMC_ISTANBUL => entry 2 0 1
      | EVMC_PETERSBURG => op_table_entry.mk fn_undefined 0 0 0
      end
    else if v =? 85 then entry 0 2 (-2)                     (* SSTORE *)
    else if v =? 86 then entry 8 1 (-1)                     (* JUMP *)
    else if v =? 87 then entry 10 2 (-2)                    (* JUMPI *)
    else if v =? 88 then entry 2 0 1                        (* PC *)
    else if v =? 90 then entry 2 0 1                        (* GAS *)
    else if v =? 91 then entry 1 0 0                        (* JUMPDEST *)
    else if (96 <=? v) && (v <=? 127) then entry 3 0 1      (* PUSH1..PUSH32 *)
    else op_table_entry.mk fn_undefined 0 0 0.

(** The behaviour of the handlers of the instance: BEGINBLOCK and STOP as
    the specification describes them, the undefined-instruction handler, and
    a failing stop for the handlers that the specification leaves opaque (no
    run in this file reaches them). *)
Definition example_call : @handler_semantics exec_fn :=
  fun f analysis i state =>
    match f with
    | fn_opcode opcode =>
        if is_opcode opcode OPX_BEGINBLOCK then opx_beginblock analysis i state
        else if is_opcode opcode OP_STOP then op_stop analysis i state
        else execution_state.exit EVMC_FAILURE state
    | fn_undefined => execution_state.exit EVMC_UNDEFINED_INSTRUCTION state
    end.

(** * Theorems *)

(** ** Bytes and opcodes *)

Lemma opcode_value_range (b : byte) : 0 <= opcode_value b < 256.
Proof.
  unfold opcode_value. pose proof (Byte.to_N_bounded b). lia.
Qed.

Lemma opcode_value_inj (a b : byte) : opcode_value a = opcode_value b -> a = b.
Proof.
  unfold opcode_value. intros H. apply N2Z.inj in H.
  pose proof (Byte.of_to_N a) as Ha. pose proof (Byte.of_to_N b) as Hb.
  rewrite H in Ha. congruence.
Qed.

Lemma is_opcode_true (a b : byte) : is_opcode a b = true <-> a = b.
Proof.
  unfold is_opcode. rewrite Z.eqb_eq. split; [apply opcode_value_inj | by intros ->].
Qed.

Lemma is_opcode_false (a b : byte) : is_opcode a b = false <-> a <> b.
Proof.
  rewrite <- is_opcode_true. destruct (is_opcode a b); split; congruence.
Qed.

Lemma switch_case_immediate (opcode : byte) :
  match switch_case opcode with
  | case_small_push =>
      immediate_size opcode = push_size opcode /\ (1 <= push_size opcode <= 8)%nat
  | case_large_push =>
      immediate_size opcode = push_size opcode /\ (9 <= push_size opcode <= 32)%nat
  | _ => immediate_size opcode = 0%nat
  end.
Proof. destruct opcode; vm_compute; repeat split; lia. Qed.

Lemma switch_case_terminator (opcode : byte) :
  is_terminator opcode = true <-> switch_case opcode = case_terminator.
Proof. destruct opcode; vm_compute; split; congruence. Qed.

Lemma switch_case_jumpdest : switch_case OP_JUMPDEST = case_default.
Proof. reflexivity. Qed.

(** ** The value of a small push *)

Lemma lor_disjoint_add (a b q : Z) :
  0 <= q -> 0 <= b < 2 ^ q -> Z.lor (a * 2 ^ q) b = a * 2 ^ q + b.
Proof.
  intros Hq Hb.
  assert (Hland : Z.land (a * 2 ^ q) b = 0).
  { apply Z.bits_inj'. intros n Hn. rewrite Z.land_spec, Z.bits_0.
    destruct (Z.lt_ge_cases n q) as [Hlt | Hge].
    - rewrite Z.mul_pow2_bits_low by lia. reflexivity.
    - destruct (Z.eq_dec b 0) as [-> | Hb0].
      + rewrite Z.bits_0. apply andb_false_r.
      + rewrite (Z.bits_above_log2 b n); [apply andb_false_r | lia |].
        apply Z.lt_le_trans with q; [| lia].
        apply Z.log2_lt_pow2; lia. }
  rewrite <- Z.lxor_lor by exact Hland.
  symmetry. apply Z.add_nocarry_lxor. exact Hland.
Qed.

Lemma big_endian_fold (bytes : list byte) (acc : Z) :
  fold_left (fun acc b => acc * 256 + opcode_value b) bytes acc
  = acc * 256 ^ Z.of_nat (length bytes) + big_endian bytes.
Proof.
  unfold big_endian. revert acc.
  induction bytes as [| b bytes IH]; intros acc; simpl fold_left.
  - simpl. lia.
  - rewrite IH. rewrite (IH (0 * 256 + opcode_value b)).
    rewrite length_cons, Nat2Z.inj_succ, Z.pow_succ_r by lia. lia.
Qed.

Lemma big_endian_cons (b : byte) (bytes : list byte) :
  big_endian (b :: bytes)
  = opcode_value b * 256 ^ Z.of_nat (length bytes) + big_endian bytes.
Proof.
  unfold big_endian at 1. simpl fold_left. rewrite big_endian_fold. lia.
Qed.

Lemma big_endian_app (l1 l2 : list byte) :
  big_endian (l1 ++ l2)
  = big_endian l1 * 256 ^ Z.of_nat (length l2) + big_endian l2.
Proof.
  unfold big_endian at 1. rewrite fold_left_app.
  rewrite big_endian_fold. reflexivity.
Qed.

Lemma big_endian_zeros (n : nat) : big_endian (replicate n x00) = 0.
Proof.
  induction n as [| n IH]; [reflexivity |].
  simpl replicate. rewrite big_endian_cons, IH. reflexivity.
Qed.

Lemma big_endian_bound (bytes : list byte) :
  0 <= big_endian bytes < 256 ^ Z.of_nat (length bytes).
Proof.
  induction bytes as [| b bytes IH].
  - unfold big_endian. simpl. lia.
  - rewrite big_endian_cons, length_cons, Nat2Z.inj_succ, Z.pow_succ_r by lia.
    pose proof (opcode_value_range b). nia.
Qed.

(** The inner loop assembles the bytes it reads at the high end of the
    [k] bytes that are still to fill. *)
Lemma read_small_push_spec (bytes : list byte) :
  forall (k : nat) (v a : Z),
    (length bytes <= k <= 8)%nat ->
    v = a * 2 ^ (8 * Z.of_nat k) ->
    read_small_push bytes (8 * (Z.of_nat k - 1)) v
    = v + big_endian bytes * 2 ^ (8 * (Z.of_nat k - Z.of_nat (length bytes))).
Proof.
  induction bytes as [| b bytes IH]; intros k v a Hk Hv.
  - simpl. unfold big_endian. simpl. lia.
  - simpl read_small_push. rewrite length_cons in Hk.
    destruct k as [| k]; [lia |].
    pose proof (opcode_value_range b) as Hb.
    replace (8 * (Z.of_nat (S k) - 1)) with (8 * Z.of_nat k) by lia.
    rewrite Z.shiftl_mul_pow2 by lia.
    assert (Hpow : 0 < 2 ^ (8 * Z.of_nat k)) by (apply Z.pow_pos_nonneg; lia).
    assert (Hle : 2 ^ (8 * Z.of_nat k) <= 2 ^ 56) by (apply Z.pow_le_mono_r; lia).
    assert (Hshift : to_uint 64 (opcode_value b * 2 ^ (8 * Z.of_nat k))
                     = opcode_value b * 2 ^ (8 * Z.of_nat k)).
    { unfold to_uint. apply Z.mod_small. split; [nia |].
      change (2 ^ 64) with (256 * 2 ^ 56). nia. }
    rewrite Hshift.
    assert (Hlor : Z.lor v (opcode_value b * 2 ^ (8 * Z.of_nat k))
                   = (a * 256 + opcode_value b) * 2 ^ (8 * Z.of_nat k)).
    { rewrite Hv.
      replace (8 * Z.of_nat (S k)) with (8 * Z.of_nat k + 8) by lia.
      rewrite lor_disjoint_add.
      + rewrite Z.pow_add_r by lia. change (2 ^ 8) with 256. ring.
      + lia.
      + rewrite Z.pow_add_r by lia. change (2 ^ 8) with 256. nia. }
    rewrite Hlor.
    destruct k as [| k].
    + destruct bytes as [| b' bytes]; [| simpl in Hk; lia].
      simpl read_small_push. rewrite big_endian_cons.
      unfold big_endian. simpl. rewrite Hv. simpl. lia.
    + replace (to_uint 64 (8 * Z.of_nat (S k) - 8))
        with (8 * (Z.of_nat (S k) - 1)).
      2:{ unfold to_uint. rewrite Z.mod_small; lia. }
      rewrite (IH (S k) _ (a * 256 + opcode_value b)); [| lia | reflexivity].
      rewrite big_endian_cons, Hv, length_cons.
      set (m := length bytes) in *.
      assert (Hm : (m <= S k)%nat) by lia.
      replace (8 * Z.of_nat (S (S k))) with (8 * Z.of_nat (S k) + 8) by lia.
      replace (8 * Z.of_nat (S k))
        with (8 * Z.of_nat m + 8 * (Z.of_nat (S k) - Z.of_nat m)) at 1 2 by lia.
      replace (8 * (Z.of_nat (S (S k)) - Z.of_nat (S m)))
        with (8 * (Z.of_nat (S k) - Z.of_nat m)) by lia.
      rewrite !Z.pow_add_r by lia.
      replace (256 ^ Z.of_nat m) with (2 ^ (8 * Z.of_nat m)).
      2:{ rewrite Z.pow_mul_r by lia. reflexivity. }
      change (2 ^ 8) with 256. ring.
Qed.

Lemma read_small_push_padded (bytes : list byte) (n : nat) :
  (length bytes <= n <= 8)%nat ->
  read_small_push bytes (Z.of_nat (n - 1) * 8) 0
  = big_endian (bytes ++ replicate (n - length bytes) x00).
Proof.
  intros Hn.
  destruct n as [| n].
  - destruct bytes; [reflexivity | simpl in Hn; lia].
  - replace (Z.of_nat (S n - 1) * 8) with (8 * (Z.of_nat (S n) - 1)) by lia.
    rewrite (read_small_push_spec bytes (S n) 0 0); [| lia | lia].
    rewrite big_endian_app, big_endian_zeros, length_replicate.
    rewrite Nat2Z.inj_sub by lia.
    replace (256 ^ (Z.of_nat (S n) - Z.of_nat (length bytes)))
      with (2 ^ (8 * (Z.of_nat (S n) - Z.of_nat (length bytes)))).
    2:{ rewrite Z.pow_mul_r by lia. reflexivity. }
    lia.
Qed.

(** ** [analyze] against the reference analysis *)

Section Refinement.
Context {F : Type} (op_tbl : op_table F).

Lemma back_set_arg_snoc (a : instruction_argument)
    (l : list (instruction.t F)) (x : instruction.t F) :
  back_set_arg a (l ++ [x]) = l ++ [instruction.set_arg a x].
Proof.
  unfold back_set_arg. rewrite length_app. simpl length.
  replace (Nat.pred (length l + 1)) with (length l + 0)%nat by lia.
  rewrite alter_app_r. reflexivity.
Qed.

Lemma with_instrs_back_set_arg (a : instruction_argument)
    (x : instruction.t F) (analysis : code_analysis.t F) :
  with_instrs (back_set_arg a) (with_instrs (emplace_back x) analysis)
  = with_instrs (emplace_back (instruction.set_arg a x)) analysis.
Proof.
  unfold with_instrs, emplace_back. cbn [code_analysis.instrs
    code_analysis.code_end code_analysis.jumpdest_offsets
    code_analysis.jumpdest_targets].
  rewrite back_set_arg_snoc. reflexivity.
Qed.

Lemma analyze_iteration_eq (opcode : byte) (code_pos : Z) (rest : list byte)
    (block : block_analysis.t) (analysis : code_analysis.t F) :
  code_analysis.code_end analysis = code_pos + 1 + Z.of_nat (length rest) ->
  let n := immediate_size opcode in
  let o := mk_op code_pos opcode (take n rest) in
  let block' := account (op_tbl opcode) block in
  analyze_iteration op_tbl opcode code_pos rest block analysis
  = maybe_close op_tbl (is_terminator opcode)
      (mk_loop_state (code_pos + 1 + Z.of_nat (length (take n rest)))
         (drop n rest) block' (record_op op_tbl block' o analysis)).
Proof.
  intros Hend n o block'.
  unfold analyze_iteration, record_op, is_jumpdest, instr_of. simpl op_code.
  pose proof (switch_case_immediate opcode) as Himm.
  pose proof (switch_case_terminator opcode) as Hterm.
  fold n in Himm. fold block'.
  replace (code_pos + 1 - 1) with code_pos by lia.
  destruct (is_opcode opcode OP_JUMPDEST) eqn:Hjd.
  - apply is_opcode_true in Hjd. subst opcode.
    change (is_terminator OP_JUMPDEST) with false.
    change (switch_case OP_JUMPDEST) with case_default. cbv iota.
    subst n. change (immediate_size OP_JUMPDEST) with 0%nat.
    rewrite take_0, drop_0. simpl length. rewrite Z.add_0_r. reflexivity.
  - assert (Hnt : switch_case opcode <> case_terminator ->
                  is_terminator opcode = false).
    { intros Hne. destruct (is_terminator opcode); [| done]. tauto. }
    destruct (switch_case opcode) eqn:Hcase.
    + replace (is_terminator opcode) with true by (symmetry; tauto).
      rewrite Himm, take_0, drop_0. simpl length. rewrite Z.add_0_r.
      unfold instruction.make. reflexivity.
    + destruct Himm as [Himm Hsz]. rewrite <- Himm.
      rewrite Hnt by done.
      f_equal. f_equal.
      rewrite with_instrs_back_set_arg.
      rewrite read_small_push_padded by (rewrite length_take; lia).
      reflexivity.
    + destruct Himm as [Himm Hsz]. rewrite <- Himm.
      rewrite Hnt by done.
      f_equal. f_equal.
      * rewrite Hend, length_take.
        destruct (code_pos + 1 + Z.of_nat n >? code_pos + 1 + Z.of_nat (length rest)) eqn:Hgt; lia.
      * rewrite with_instrs_back_set_arg. reflexivity.
    + rewrite Hnt by done.
      rewrite Himm, take_0, drop_0. simpl length. rewrite Z.add_0_r.
      f_equal. f_equal.
      rewrite with_instrs_back_set_arg. reflexivity.
    + rewrite Hnt by done.
      rewrite Himm, take_0, drop_0. simpl length. rewrite Z.add_0_r.
      f_equal. f_equal.
      rewrite with_instrs_back_set_arg. reflexivity.
    + rewrite Hnt by done.
      rewrite Himm, take_0, drop_0. simpl length. rewrite Z.add_0_r.
      unfold instruction.make. reflexivity.
Qed.

Lemma decode_from_skip (code : list byte) :
  forall (skip : nat) (pos : Z),
    decode_from skip pos code
    = decode_from 0 (pos + Z.of_nat (length (take skip code))) (drop skip code).
Proof.
  induction code as [| b rest IH]; intros skip pos.
  - rewrite take_nil, drop_nil. reflexivity.
  - destruct skip as [| skip].
    + rewrite take_0, drop_0. simpl length. rewrite Z.add_0_r. reflexivity.
    + cbn [decode_from take drop length]. rewrite IH. f_equal. lia.
Qed.

Lemma decode_from_cons (pos : Z) (b : byte) (rest : list byte) :
  let n := immediate_size b in
  decode_from 0 pos (b :: rest)
  = mk_op pos b (take n rest)
    :: decode_from 0 (pos + 1 + Z.of_nat (length (take n rest))) (drop n rest).
Proof. intros n. simpl decode_from. rewrite decode_from_skip. reflexivity. Qed.

Lemma starts_with_jumpdest_decode (pos : Z) (rest : list byte) :
  starts_with_jumpdest (decode_from 0 pos rest)
  = match rest with
    | [] => false
    | next :: _ => is_opcode next OP_JUMPDEST
    end.
Proof. destruct rest; reflexivity. Qed.

Lemma basic_blocks_nonempty (ops : list op) :
  exists b bs, basic_blocks ops = b :: bs.
Proof.
  induction ops as [| o ops IH]; simpl; [eauto |].
  destruct (is_terminator (op_code o) || starts_with_jumpdest ops); [eauto |].
  destruct IH as (b & bs & ->). eauto.
Qed.

Lemma basic_blocks_head (ops : list op) (b : list op) (bs : list (list op)) :
  basic_blocks ops = b :: bs -> starts_with_jumpdest b = starts_with_jumpdest ops.
Proof.
  destruct ops as [| o ops]; simpl.
  - intros [= <- <-]. reflexivity.
  - destruct (is_terminator (op_code o) || starts_with_jumpdest ops).
    + intros [= <- <-]. reflexivity.
    + destruct (basic_blocks ops); intros [= <- <-]; reflexivity.
Qed.

Lemma same_counters_account (e : op_table_entry.t F) (b1 b2 : block_analysis.t) :
  same_counters b1 b2 -> same_counters (account e b1) (account e b2).
Proof.
  intros (Hg & Hr & Hm & Hc). unfold same_counters, account. simpl.
  rewrite Hg, Hr, Hm, Hc. done.
Qed.

Lemma same_counters_close (b1 b2 : block_analysis.t) :
  same_counters b1 b2 -> block_analysis.close b1 = block_analysis.close b2.
Proof.
  intros (Hg & Hr & Hm & Hc). unfold block_analysis.close.
  rewrite Hg, Hr, Hm. reflexivity.
Qed.

Lemma same_counters_summary (ops : list op) :
  forall b1 b2, same_counters b1 b2 ->
    same_counters (summary_from op_tbl b1 ops) (summary_from op_tbl b2 ops).
Proof.
  induction ops as [| o ops IH]; intros b1 b2 H; simpl; [done |].
  apply IH. by apply same_counters_account.
Qed.

Lemma same_counters_body (ops : list op) :
  forall b1 b2, same_counters b1 b2 ->
    block_body op_tbl b1 ops = block_body op_tbl b2 ops.
Proof.
  induction ops as [| o ops IH]; intros b1 b2 H; simpl; [done |].
  pose proof (same_counters_account (op_tbl (op_code o)) _ _ H) as H'.
  rewrite (IH _ _ H'). f_equal.
  unfold instr_of. destruct H' as (-> & _). reflexivity.
Qed.

Lemma same_counters_make (i j : nat) :
  same_counters (block_analysis.make i) (block_analysis.make j).
Proof. done. Qed.

Lemma save_block_at (block : block_analysis.t) (analysis : code_analysis.t F)
    (pre cur : list (instruction.t F)) :
  code_analysis.instrs analysis
    = pre ++ instruction.make (op_table_entry.fn (op_tbl OPX_BEGINBLOCK)) :: cur ->
  block_analysis.begin_block_index block = length pre ->
  save_block block analysis
  = code_analysis.mk
      (pre ++ beginblock op_tbl (block_analysis.close block) :: cur)
      (code_analysis.code_end analysis)
      (code_analysis.jumpdest_offsets analysis)
      (code_analysis.jumpdest_targets analysis).
Proof.
  intros Hinstrs Hidx. unfold save_block, with_instrs.
  rewrite Hinstrs, Hidx.
  replace (length pre) with (length pre + 0)%nat at 1 by lia.
  rewrite alter_app_r. reflexivity.
Qed.

Lemma record_op_eq (block : block_analysis.t) (o : op)
    (a : code_analysis.t F) :
  record_op op_tbl block o a
  = code_analysis.mk
      (code_analysis.instrs a
       ++ (if is_jumpdest o then [] else [instr_of op_tbl block o]))
      (code_analysis.code_end a)
      (code_analysis.jumpdest_offsets a
       ++ (if is_jumpdest o then [to_int 32 (op_offset o)] else []))
      (code_analysis.jumpdest_targets a
       ++ (if is_jumpdest o
           then [to_int 32 (Z.of_nat (length (code_analysis.instrs a)) - 1)]
           else [])).
Proof.
  unfold record_op. destruct (is_jumpdest o).
  - rewrite app_nil_r. reflexivity.
  - rewrite !app_nil_r. destruct a; reflexivity.
Qed.

Lemma analyze_loop_reference (fuel : nat) :
  forall (s : loop_state) (pre cur : list (instruction.t F))
         (b : list op) (bs : list (list op)),
    let ops := decode_from 0 (ls_code_pos s) (ls_rest s) in
    let block := ls_block s in
    let analysis := ls_analysis s in
    (length (ls_rest s) <= fuel)%nat ->
    code_analysis.code_end analysis
      = ls_code_pos s + Z.of_nat (length (ls_rest s)) ->
    code_analysis.instrs analysis
      = pre ++ instruction.make (op_table_entry.fn (op_tbl OPX_BEGINBLOCK)) :: cur ->
    block_analysis.begin_block_index block = length pre ->
    (starts_with_jumpdest ops = true -> cur = []) ->
    basic_blocks ops = b :: bs ->
    finish op_tbl (analyze_loop op_tbl fuel s)
    = code_analysis.mk
        (pre
         ++ beginblock op_tbl (block_analysis.close (summary_from op_tbl block b))
         :: cur ++ block_body op_tbl block b
            ++ flat_map (block_instrs op_tbl) bs
            ++ [instruction.make (op_table_entry.fn (op_tbl OP_STOP))])
        (code_analysis.code_end analysis)
        (code_analysis.jumpdest_offsets analysis
         ++ map (fun o => to_int 32 (op_offset o))
              (filter (fun o => is_jumpdest o = true) ops))
        (code_analysis.jumpdest_targets analysis
         ++ (if starts_with_jumpdest b
             then [to_int 32 (Z.of_nat (length pre))] else [])
         ++ block_targets op_tbl
              (length pre + 1 + length cur
               + length (block_body op_tbl block b)) bs).
Proof.
  induction fuel as [| fuel IH]; intros s pre cur b bs ops block analysis
    Hfuel Hend Hinstrs Hidx Hcur Hblocks;
    destruct s as [pos rest blk an]; subst ops block analysis;
    cbn [ls_rest ls_code_pos ls_block ls_analysis] in *.
  - destruct rest; [| simpl in Hfuel; lia].
    simpl in Hblocks. injection Hblocks as <- <-.
    unfold finish. simpl ls_block. simpl ls_analysis.
    rewrite (save_block_at _ _ pre cur) by done.
    unfold with_instrs, emplace_back. simpl.
    rewrite !app_nil_r. rewrite <- app_assoc. reflexivity.
  - destruct rest as [| opcode rest].
    { simpl in Hblocks. injection Hblocks as <- <-.
      unfold finish. simpl ls_block. simpl ls_analysis.
      rewrite (save_block_at _ _ pre cur) by done.
      unfold with_instrs, emplace_back. simpl.
      rewrite !app_nil_r. rewrite <- app_assoc. reflexivity. }
    rewrite length_cons in Hfuel, Hend.
    assert (Hend' : code_analysis.code_end an = pos + 1 + Z.of_nat (length rest))
      by lia.
    cbn [analyze_loop ls_rest ls_code_pos ls_block ls_analysis].
    rewrite analyze_iteration_eq by exact Hend'.
    rewrite decode_from_cons in Hblocks, Hcur |- *.
    set (n := immediate_size opcode) in *.
    set (o := mk_op pos opcode (take n rest)) in *.
    set (pos' := pos + 1 + Z.of_nat (length (take n rest))) in *.
    set (tl := decode_from 0 pos' (drop n rest)) in *.
    set (blk' := account (op_tbl opcode) blk) in *.
    unfold maybe_close. cbn [ls_rest ls_block ls_analysis ls_code_pos].
    rewrite <- (starts_with_jumpdest_decode pos' (drop n rest)). fold tl.
    simpl in Hblocks.
    rewrite record_op_eq.
    set (emit := if is_jumpdest o then [] else [instr_of op_tbl blk' o]).
    assert (Hjdlen : is_jumpdest o = true ->
              Z.of_nat (length (code_analysis.instrs an)) - 1
              = Z.of_nat (length pre)).
    { intros Hjd. rewrite Hinstrs, (Hcur Hjd), length_app. simpl. lia. }
    destruct (basic_blocks_nonempty tl) as (b1 & bs1 & Htl).
    pose proof (basic_blocks_head _ _ _ Htl) as Hhead.
    rewrite Htl in Hblocks.
    assert (Hfilter :
      (if is_jumpdest o then [to_int 32 (op_offset o)] else [])
      ++ map (fun o => to_int 32 (op_offset o))
           (filter (fun o => is_jumpdest o = true) tl)
      = map (fun o => to_int 32 (op_offset o))
          (filter (fun o => is_jumpdest o = true) (o :: tl))).
    { rewrite filter_cons. destruct (is_jumpdest o); case_decide; done. }
    assert (Htarget :
      (if is_jumpdest o
       then [to_int 32 (Z.of_nat (length (code_analysis.instrs an)) - 1)]
       else [])
      = if is_jumpdest o then [to_int 32 (Z.of_nat (length pre))] else []).
    { destruct (is_jumpdest o); [| done]. rewrite Hjdlen by done. done. }
    assert (Hemit : length emit = length (block_body op_tbl blk [o])).
    { simpl. rewrite app_nil_r. reflexivity. }
    destruct (is_terminator opcode || starts_with_jumpdest tl) eqn:Hclose.
    + injection Hblocks as <- <-.
      erewrite (save_block_at _ _ pre (cur ++ emit)).
      2:{ cbn [code_analysis.instrs]. rewrite Hinstrs.
          rewrite <- app_assoc. reflexivity. }
      2:{ exact Hidx. }
      unfold with_instrs, emplace_back.
      cbn [code_analysis.instrs code_analysis.code_end
           code_analysis.jumpdest_offsets code_analysis.jumpdest_targets].
      erewrite (IH _ (pre ++ beginblock op_tbl (block_analysis.close blk')
                       :: cur ++ emit) [] b1 bs1);
        cbn [ls_rest ls_code_pos ls_block ls_analysis code_analysis.instrs
             code_analysis.code_end code_analysis.jumpdest_offsets
             code_analysis.jumpdest_targets block_analysis.begin_block_index
             block_analysis.make].
      * set (idx := (length _ - 1)%nat).
        rewrite (same_counters_close _ _
                   (same_counters_summary b1 _ _ (same_counters_make idx 0))).
        rewrite (same_counters_body b1 _ _ (same_counters_make idx 0)).
        f_equal.
        -- cbn [summary_from fold_left block_body flat_map block_instrs op_code o].
           fold emit. rewrite <- !app_assoc. simpl. rewrite <- !app_assoc.
           reflexivity.
        -- fold tl. rewrite <- app_assoc, Hfilter. reflexivity.
        -- rewrite <- !app_assoc, Htarget. f_equal.
           cbn [block_targets starts_with_jumpdest].
           assert (Hlen :
             length (pre ++ beginblock op_tbl (block_analysis.close blk')
                     :: cur ++ emit)
             = (length pre + 1 + length cur
                + length (block_body op_tbl blk [o]))%nat).
           { rewrite <- Hemit, length_app, length_cons, length_app. lia. }
           rewrite Hlen. f_equal. f_equal. f_equal.
           unfold block_instrs. cbn [length]. lia.
      * rewrite length_drop. lia.
      * subst pos'. rewrite length_take, length_drop. lia.
      * reflexivity.
      * rewrite (length_app _ [_]). simpl. lia.
      * done.
      * exact Htl.
    + injection Hblocks as <- <-.
      apply orb_false_iff in Hclose as [_ Hnojd].
      erewrite (IH _ pre (cur ++ emit) b1 bs1);
        cbn [ls_rest ls_code_pos ls_block ls_analysis code_analysis.instrs
             code_analysis.code_end code_analysis.jumpdest_offsets
             code_analysis.jumpdest_targets].
      * fold tl. rewrite Hhead, Hnojd.
        f_equal.
        -- cbn [summary_from fold_left block_body op_code o].
           fold emit. fold blk'. rewrite <- !app_assoc. reflexivity.
        -- rewrite <- app_assoc, Hfilter. reflexivity.
        -- rewrite <- !app_assoc, Htarget.
           cbn [starts_with_jumpdest app]. f_equal. f_equal. f_equal.
           cbn [block_body op_code o]. fold emit. fold blk'.
           subst emit. rewrite !length_app. lia.
      * rewrite length_drop. lia.
      * subst pos'. rewrite length_take, length_drop. lia.
      * rewrite Hinstrs, <- app_assoc. reflexivity.
      * exact Hidx.
      * fold tl. rewrite Hnojd. done.
      * exact Htl.
Qed.

(** [analyze] computes the analysis that the specification describes. *)
Lemma analyze_with_reference (code : list byte) :
  analyze_with op_tbl code = reference_analysis op_tbl code.
Proof.
  destruct (basic_blocks_nonempty (decode code)) as (b & bs & Hb).
  pose proof (analyze_loop_reference (length code)
    (mk_loop_state 0 code (block_analysis.make 0)
       (code_analysis.mk
          [instruction.make (op_table_entry.fn (op_tbl OPX_BEGINBLOCK))]
          (Z.of_nat (length code)) [] []))
    [] [] b bs) as H.
  cbn [ls_rest ls_code_pos ls_block ls_analysis code_analysis.instrs
       code_analysis.code_end code_analysis.jumpdest_offsets
       code_analysis.jumpdest_targets block_analysis.begin_block_index
       block_analysis.make] in H.
  unfold analyze_with. unfold finish in H. cbn [ls_block ls_analysis] in H.
  rewrite H; try done; try lia.
  unfold reference_analysis. fold (decode code). rewrite Hb.
  cbn [flat_map block_targets app length]. unfold block_instrs at 2.
  f_equal. rewrite <- app_assoc. reflexivity.
Qed.
End Refinement.

(** ** The opcodes of a code *)

Lemma decode_from_length (code : list byte) :
  forall (skip : nat) (pos : Z),
    (length (decode_from skip pos code) <= length code)%nat.
Proof.
  induction code as [| b rest IH]; intros skip pos; [done |].
  destruct skip as [| skip]; cbn [decode_from length].
  - specialize (IH (immediate_size b) (pos + 1)). lia.
  - specialize (IH skip (pos + 1)). lia.
Qed.

(** Every decoded opcode is the byte of the code at its offset, outside of
    any immediate, and its immediate is made of the bytes that follow. *)
Lemma decode_from_sound (code : list byte) :
  forall (skip : nat) (pos : Z) (o : op),
    o ∈ decode_from skip pos code ->
    exists i : nat,
      op_offset o = pos + Z.of_nat i
      /\ code !! i = Some (op_code o)
      /\ push_data_from skip code !! i = Some false
      /\ op_imm o = take (immediate_size (op_code o)) (drop (S i) code).
Proof.
  induction code as [| b rest IH]; intros skip pos o Ho.
  - inversion Ho.
  - destruct skip as [| skip]; cbn [decode_from push_data_from] in *.
    + apply elem_of_cons in Ho as [-> | Ho].
      * exists 0%nat. simpl. rewrite drop_0. repeat split; [lia | done.. ].
      * destruct (IH _ _ _ Ho) as (i & Hoff & Hcode & Hdata & Himm).
        exists (S i). simpl. repeat split; [lia | done..].
    + destruct (IH _ _ _ Ho) as (i & Hoff & Hcode & Hdata & Himm).
      exists (S i). simpl. repeat split; [lia | done..].
Qed.

(** Every byte outside the immediates is a decoded opcode. *)
Lemma decode_from_complete (code : list byte) :
  forall (skip : nat) (pos : Z) (i : nat) (b : byte),
    code !! i = Some b ->
    push_data_from skip code !! i = Some false ->
    exists o, o ∈ decode_from skip pos code
              /\ op_offset o = pos + Z.of_nat i /\ op_code o = b.
Proof.
  induction code as [| c rest IH]; intros skip pos i b Hb Hdata; [done |].
  destruct skip as [| skip]; cbn [decode_from push_data_from] in *.
  - destruct i as [| i]; simpl in Hb, Hdata.
    + injection Hb as ->. eexists. split; [apply list_elem_of_here |].
      simpl. split; [lia | done].
    + destruct (IH _ (pos + 1) _ _ Hb Hdata) as (o & Ho & Hoff & Hop).
      exists o. split; [by apply list_elem_of_further |]. split; [lia | done].
  - destruct i as [| i]; simpl in Hb, Hdata; [done |].
    destruct (IH _ (pos + 1) _ _ Hb Hdata) as (o & Ho & Hoff & Hop).
    exists o. split; [done |]. split; [lia | done].
Qed.

Lemma decode_from_range (code : list byte) (skip : nat) (pos : Z) :
  Forall (fun o => pos <= op_offset o < pos + Z.of_nat (length code))
         (decode_from skip pos code).
Proof.
  apply Forall_forall. intros o Ho.
  destruct (decode_from_sound _ _ _ _ Ho) as (i & Hoff & Hcode & _).
  apply lookup_lt_Some in Hcode. lia.
Qed.

(** The offsets of the decoded opcodes are strictly ascending. *)
Lemma decode_from_sorted (code : list byte) :
  forall (skip : nat) (pos : Z),
    StronglySorted Z.lt (map op_offset (decode_from skip pos code)).
Proof.
  induction code as [| b rest IH]; intros skip pos; [constructor |].
  destruct skip as [| skip]; cbn [decode_from map].
  - constructor; [apply IH |].
    apply Forall_map. eapply Forall_impl; [apply decode_from_range |].
    simpl. intros o Ho. lia.
  - apply IH.
Qed.

Lemma to_int_small (w x : Z) :
  0 < w -> - 2 ^ (w - 1) <= x < 2 ^ (w - 1) -> to_int w x = x.
Proof.
  intros Hw Hx. unfold to_int.
  replace (2 ^ w) with (2 * 2 ^ (w - 1)).
  2:{ rewrite <- Z.pow_succ_r by lia. f_equal. lia. }
  rewrite Z.mod_small; lia.
Qed.

(** ** Basic blocks *)

Lemma basic_blocks_concat (ops : list op) : concat (basic_blocks ops) = ops.
Proof.
  induction ops as [| o ops IH]; [done |]. simpl.
  destruct (is_terminator (op_code o) || starts_with_jumpdest ops).
  - simpl. by rewrite IH.
  - destruct (basic_blocks ops) as [| b bs]; simpl in *; by rewrite IH.
Qed.

Lemma basic_blocks_length (ops : list op) :
  (length (basic_blocks ops) <= length ops + 1)%nat.
Proof.
  induction ops as [| o ops IH]; simpl; [lia |].
  destruct (is_terminator (op_code o) || starts_with_jumpdest ops).
  - simpl. lia.
  - destruct (basic_blocks ops) as [| b bs]; simpl in *; lia.
Qed.

(** Only the first opcode of a block can be a JUMPDEST. *)
Lemma basic_blocks_jumpdest_first (ops : list op) :
  Forall (fun b => Forall (fun o => is_jumpdest o = false) (tail b))
         (basic_blocks ops).
Proof.
  induction ops as [| o ops IH]; simpl.
  - repeat constructor.
  - destruct (is_terminator (op_code o) || starts_with_jumpdest ops) eqn:Hclose.
    + constructor; [constructor | exact IH].
    + apply orb_false_iff in Hclose as [_ Hnojd].
      destruct (basic_blocks ops) as [| b bs] eqn:Hb.
      * repeat constructor.
      * apply Forall_cons in IH as [Hb1 Hbs].
        constructor; [| exact Hbs]. simpl.
        pose proof (basic_blocks_head _ _ _ Hb) as Hhead.
        rewrite Hnojd in Hhead.
        destruct b as [| o' b]; [constructor |].
        constructor; [exact Hhead | exact Hb1].
Qed.

Section Layout.
Context {F : Type} (op_tbl : op_table F).

Lemma block_body_length (ops : list op) :
  forall block, (length (block_body op_tbl block ops) <= length ops)%nat.
Proof.
  induction ops as [| o ops IH]; intros block; simpl; [lia |].
  rewrite length_app. specialize (IH (account (op_tbl (op_code o)) block)).
  destruct (is_jumpdest o); simpl; lia.
Qed.

Lemma flat_map_block_instrs_length (blocks : list (list op)) :
  (length (flat_map (block_instrs op_tbl) blocks)
   <= length blocks + length (concat blocks))%nat.
Proof.
  induction blocks as [| b blocks IH]; simpl; [lia |].
  rewrite !length_app.
  pose proof (block_body_length b (block_analysis.make 0)). lia.
Qed.

(** The instruction vector has at most two entries per byte of code, plus
    the first BEGINBLOCK and the final STOP. *)
Lemma analyze_with_length (code : list byte) :
  (2 <= length (code_analysis.instrs (analyze_with op_tbl code))
   <= 2 * length code + 2)%nat.
Proof.
  rewrite analyze_with_reference. unfold reference_analysis.
  cbn [code_analysis.instrs]. rewrite length_app. simpl length.
  pose proof (flat_map_block_instrs_length (basic_blocks (decode code))) as H.
  rewrite basic_blocks_concat in H.
  pose proof (basic_blocks_length (decode code)).
  pose proof (decode_from_length code 0 0). fold (decode code) in *.
  destruct (basic_blocks_nonempty (decode code)) as (b & bs & Hb).
  rewrite Hb in *. cbn [flat_map block_instrs length app] in *.
  split; lia.
Qed.

Lemma begin_index_lookup (blocks : list (list op)) (j : nat) (b : list op) :
  blocks !! j = Some b ->
  flat_map (block_instrs op_tbl) blocks !! begin_index op_tbl blocks j
  = Some (beginblock op_tbl
            (block_analysis.close
               (summary_from op_tbl (block_analysis.make 0) b))).
Proof.
  intros Hj. unfold begin_index.
  set (i := length _).
  rewrite <- (take_drop_middle _ _ _ Hj).
  rewrite flat_map_app. subst i. rewrite lookup_app_r by lia.
  rewrite Nat.sub_diag. reflexivity.
Qed.

Lemma begin_index_lt (blocks : list (list op)) (j : nat) (b : list op) :
  blocks !! j = Some b ->
  (begin_index op_tbl blocks j
   < length (flat_map (block_instrs op_tbl) blocks))%nat.
Proof.
  intros Hj. eapply lookup_lt_Some. by apply begin_index_lookup.
Qed.

(** Every recorded target is the index of the BEGINBLOCK of a block that
    starts with a JUMPDEST. *)
Lemma block_targets_spec (blocks : list (list op)) :
  forall (pre : list (list op)),
    Forall (fun t => exists j b,
              (pre ++ blocks) !! j = Some b
              /\ starts_with_jumpdest b = true
              /\ t = to_int 32 (Z.of_nat (begin_index op_tbl (pre ++ blocks) j)))
      (block_targets op_tbl
         (length (flat_map (block_instrs op_tbl) pre)) blocks).
Proof.
  induction blocks as [| b blocks IH]; intros pre; [constructor |].
  cbn [block_targets]. apply Forall_app. split.
  - destruct (starts_with_jumpdest b) eqn:Hjd; [| constructor].
    constructor; [| constructor].
    exists (length pre), b. split; [| split; [done |]].
    + by rewrite list_lookup_middle.
    + unfold begin_index. rewrite take_app_length. reflexivity.
  - specialize (IH (pre ++ [b])).
    rewrite flat_map_app, length_app in IH. simpl in IH.
    rewrite app_nil_r in IH. rewrite <- app_assoc in IH. exact IH.
Qed.

Lemma block_targets_length_index (blocks : list (list op)) :
  forall i j,
    length (block_targets op_tbl i blocks)
    = length (block_targets op_tbl j blocks).
Proof.
  induction blocks as [| b blocks IH]; intros i j; [done |].
  cbn [block_targets]. rewrite !length_app.
  rewrite (IH _ (j + length (block_instrs op_tbl b))%nat).
  destruct (starts_with_jumpdest b); reflexivity.
Qed.

Lemma block_targets_length (ops : list op) :
  forall index,
    length (block_targets op_tbl index (basic_blocks ops))
    = length (filter (fun o => is_jumpdest o = true) ops).
Proof.
  induction ops as [| o ops IH]; intros index; [done |].
  cbn [basic_blocks]. rewrite filter_cons.
  destruct (is_terminator (op_code o) || starts_with_jumpdest ops) eqn:Hclose.
  - cbn [block_targets starts_with_jumpdest]. rewrite length_app, IH.
    destruct (is_jumpdest o); case_decide; done.
  - apply orb_false_iff in Hclose as [_ Hnojd].
    destruct (basic_blocks_nonempty ops) as (b & bs & Hb).
    specialize (IH index). rewrite Hb in *.
    pose proof (basic_blocks_head _ _ _ Hb) as Hhead. rewrite Hnojd in Hhead.
    cbn [block_targets starts_with_jumpdest] in *.
    rewrite Hhead in IH. rewrite length_app in *. simpl in IH.
    rewrite (block_targets_length_index bs _
               (index + S (length (block_body op_tbl (block_analysis.make 0) b)))).
    rewrite IH.
    destruct (is_jumpdest o); case_decide; done.
Qed.
End Layout.

(** ** The jump-destination index *)

Lemma StronglySorted_map_filter {A : Type} (f : A -> Z) (P : A -> Prop)
    `{forall x, Decision (P x)} (l : list A) :
  StronglySorted Z.lt (map f l) -> StronglySorted Z.lt (map f (filter P l)).
Proof.
  induction l as [| x l IH]; [done |].
  cbn [map]. intros Hs. apply StronglySorted_inv in Hs as [Hs Hx].
  rewrite filter_cons. case_decide; [| by apply IH].
  cbn [map]. apply SSorted_cons; [by apply IH |].
  rewrite Forall_forall in Hx |- *. intros z Hz.
  apply list_elem_of_In, in_map_iff in Hz as (y & <- & Hy).
  apply list_elem_of_In, list_elem_of_filter in Hy as [_ Hy].
  apply Hx, list_elem_of_In, in_map, list_elem_of_In, Hy.
Qed.

Section Jumpdests.
Context {F : Type} (op_tbl : op_table F).

(** Below 2^30 bytes of code the conversions to [int32_t] are exact. *)
Lemma analyze_with_offsets (code : list byte) :
  Z.of_nat (length code) < 2 ^ 30 ->
  code_analysis.jumpdest_offsets (analyze_with op_tbl code)
  = map op_offset (filter (fun o => is_jumpdest o = true) (decode code)).
Proof.
  intros Hsize. rewrite analyze_with_reference. unfold reference_analysis.
  cbn [code_analysis.jumpdest_offsets].
  apply map_ext_in. intros o Ho.
  apply list_elem_of_In, list_elem_of_filter in Ho as [_ Ho].
  pose proof (decode_from_range code 0 0) as Hr.
  rewrite Forall_forall in Hr. specialize (Hr o Ho). simpl in Hr.
  apply to_int_small; lia.
Qed.

Lemma analyze_with_targets (code : list byte) :
  Z.of_nat (length code) < 2 ^ 30 ->
  let blocks := basic_blocks (decode code) in
  Forall (fun t => exists j b,
            blocks !! j = Some b
            /\ starts_with_jumpdest b = true
            /\ t = Z.of_nat (begin_index op_tbl blocks j))
    (code_analysis.jumpdest_targets (analyze_with op_tbl code)).
Proof.
  intros Hsize blocks. rewrite analyze_with_reference.
  unfold reference_analysis. cbn [code_analysis.jumpdest_targets].
  fold blocks.
  pose proof (block_targets_spec op_tbl blocks []) as H.
  cbn [flat_map length app] in H.
  eapply Forall_impl; [exact H |]. simpl.
  intros t (j & b & Hj & Hjd & ->). exists j, b. split; [done |].
  split; [done |].
  apply to_int_small; [lia |].
  pose proof (begin_index_lt op_tbl _ _ _ Hj) as Hlt.
  pose proof (analyze_with_length op_tbl code) as Hlen.
  rewrite analyze_with_reference in Hlen. unfold reference_analysis in Hlen.
  cbn [code_analysis.instrs] in Hlen. rewrite length_app in Hlen.
  fold blocks in Hlen. simpl in Hlen. lia.
Qed.

Lemma analyze_with_offsets_sorted (code : list byte) :
  Z.of_nat (length code) < 2 ^ 30 ->
  StronglySorted Z.lt (code_analysis.jumpdest_offsets (analyze_with op_tbl code)).
Proof.
  intros Hsize. rewrite analyze_with_offsets by done.
  apply StronglySorted_map_filter, decode_from_sorted.
Qed.

Lemma analyze_with_index_lengths (code : list byte) :
  length (code_analysis.jumpdest_offsets (analyze_with op_tbl code))
  = length (code_analysis.jumpdest_targets (analyze_with op_tbl code)).
Proof.
  rewrite analyze_with_reference. unfold reference_analysis.
  cbn [code_analysis.jumpdest_offsets code_analysis.jumpdest_targets].
  rewrite block_targets_length, length_map. reflexivity.
Qed.
End Jumpdests.

Lemma push_data_from_length (code : list byte) :
  forall skip, length (push_data_from skip code) = length code.
Proof.
  induction code as [| b rest IH]; intros skip; [done |].
  destruct skip; simpl; by rewrite IH.
Qed.

Lemma in_push_immediate_lookup (code : list byte) (i : nat) (b : byte) :
  code !! i = Some b ->
  push_data_from 0 code !! i = Some (in_push_immediate code i).
Proof.
  intros Hb. unfold in_push_immediate.
  apply list_lookup_lookup_total_lt.
  rewrite push_data_from_length. by eapply lookup_lt_Some.
Qed.

Section Claims_jumpdests.
Context {F R : Type} (get_op_table : R -> op_table F).

(** The recorded offsets are the offsets of the JUMPDEST bytes that lie
    outside the PUSH immediates. *)
Lemma jumpdest_offsets_spec (rev : R) (code : list byte) (offset : Z) :
  Z.of_nat (length code) < 2 ^ 30 ->
  offset ∈ code_analysis.jumpdest_offsets (analyze get_op_table rev code)
  <-> exists i : nat,
        offset = Z.of_nat i
        /\ code !! i = Some OP_JUMPDEST
        /\ in_push_immediate code i = false.
Proof.
  intros Hsize. unfold analyze. rewrite analyze_with_offsets by done.
  rewrite list_elem_of_In, in_map_iff. split.
  - intros (o & <- & Ho).
    apply list_elem_of_In, list_elem_of_filter in Ho as [Hjd Ho].
    apply is_opcode_true in Hjd.
    destruct (decode_from_sound _ _ _ _ Ho) as (i & Hoff & Hcode & Hdata & _).
    exists i. rewrite Hjd in Hcode. split; [lia |]. split; [done |].
    rewrite (in_push_immediate_lookup _ _ _ Hcode) in Hdata. congruence.
  - intros (i & -> & Hcode & Hdata).
    pose proof (in_push_immediate_lookup _ _ _ Hcode) as Hlookup.
    rewrite Hdata in Hlookup.
    destruct (decode_from_complete code 0 0 i _ Hcode Hlookup)
      as (o & Ho & Hoff & Hop).
    exists o. split; [lia |].
    apply list_elem_of_In, list_elem_of_filter. split; [| done].
    apply is_opcode_true. done.
Qed.

(** C5: in a code where no JUMPDEST byte lies inside a PUSH immediate, the
    offsets at which the byte JUMPDEST occurs are exactly the values of
    [jumpdest_offsets]. *)
Theorem jumpdest_offsets_roundtrip (rev : R) (code : list byte) :
  Z.of_nat (length code) < 2 ^ 30 ->
  no_jumpdest_in_immediates code ->
  forall offset : Z,
    offset ∈ code_analysis.jumpdest_offsets (analyze get_op_table rev code)
    <-> exists i : nat, offset = Z.of_nat i /\ code !! i = Some OP_JUMPDEST.
Proof.
  intros Hsize Hno offset. rewrite jumpdest_offsets_spec by done.
  split.
  - intros (i & Hoff & Hcode & _). eauto.
  - intros (i & Hoff & Hcode). exists i. auto.
Qed.

(** C4: [jumpdest_offsets] is as long as [jumpdest_targets]; it is strictly
    ascending, and every target is the index of an instruction whose handler
    is the BEGINBLOCK intrinsic (for a code shorter than 2^30 bytes, where
    the conversions of offsets and indices to [int32_t] are exact). *)
Theorem jumpdest_index_invariants (rev : R) (code : list byte) :
  let a := analyze get_op_table rev code in
  length (code_analysis.jumpdest_offsets a)
  = length (code_analysis.jumpdest_targets a)
  /\ (Z.of_nat (length code) < 2 ^ 30 ->
      StronglySorted Z.lt (code_analysis.jumpdest_offsets a)
      /\ Forall (fun t =>
                   0 <= t
                   /\ exists ins,
                        code_analysis.instrs a !! Z.to_nat t = Some ins
                        /\ instruction.fn ins
                           = op_table_entry.fn
                               (get_op_table rev OPX_BEGINBLOCK))
           (code_analysis.jumpdest_targets a)).
Proof.
  intros a. subst a. unfold analyze.
  set (op_tbl := get_op_table rev).
  split; [apply analyze_with_index_lengths |].
  intros Hsize. split.
  - by apply analyze_with_offsets_sorted.
  - eapply Forall_impl; [by apply analyze_with_targets |]. cbv beta.
    intros t (j & b & Hj & _ & ->). split; [lia |].
    rewrite Nat2Z.id. rewrite analyze_with_reference.
    unfold reference_analysis. cbn [code_analysis.instrs].
    eexists. split.
    + rewrite lookup_app_l by (by eapply begin_index_lt).
      by apply begin_index_lookup.
    + reflexivity.
Qed.

(** C10: for every code, the empty one included, the instruction vector
    has at least two entries, a BEGINBLOCK at index 0 and the STOP handler
    last; and every jump target is an index into it (for a code shorter than
    2^30 bytes, where the conversion of indices to [int32_t] is exact). *)
Theorem analyze_instrs_in_bounds (rev : R) (code : list byte) :
  let a := analyze get_op_table rev code in
  (2 <= length (code_analysis.instrs a))%nat
  /\ (exists ins, code_analysis.instrs a !! 0%nat = Some ins
                  /\ instruction.fn ins
                     = op_table_entry.fn (get_op_table rev OPX_BEGINBLOCK))
  /\ (exists ins, last (code_analysis.instrs a) = Some ins
                  /\ instruction.fn ins
                     = op_table_entry.fn (get_op_table rev OP_STOP))
  /\ (Z.of_nat (length code) < 2 ^ 30 ->
      Forall (fun t => 0 <= t < Z.of_nat (length (code_analysis.instrs a)))
        (code_analysis.jumpdest_targets a)).
Proof.
  intros a. subst a. unfold analyze.
  set (op_tbl := get_op_table rev).
  split; [| split; [| split]].
  - apply analyze_with_length.
  - rewrite analyze_with_reference. unfold reference_analysis.
    cbn [code_analysis.instrs].
    destruct (basic_blocks_nonempty (decode code)) as (b & bs & ->).
    eexists. split; reflexivity.
  - rewrite analyze_with_reference. unfold reference_analysis.
    cbn [code_analysis.instrs]. rewrite last_snoc.
    eexists. split; reflexivity.
  - intros Hsize.
    eapply Forall_impl; [by apply analyze_with_targets |]. cbv beta.
    intros t (j & b & Hj & _ & ->). split; [lia |].
    apply inj_lt. rewrite analyze_with_reference.
    unfold reference_analysis. cbn [code_analysis.instrs].
    rewrite length_app. pose proof (begin_index_lt op_tbl _ _ _ Hj). lia.
Qed.
End Claims_jumpdests.

Lemma jumpdest_offsets_roundtrip_witness :
  let code := [x5b; x60; x00; x5b; x56; x5b] in
  Z.of_nat (length code) < 2 ^ 30
  /\ no_jumpdest_in_immediates code
  /\ forall offset : Z,
       offset ∈ code_analysis.jumpdest_offsets
                  (analyze example_op_table EVMC_ISTANBUL code)
       <-> exists i : nat, offset = Z.of_nat i /\ code !! i = Some OP_JUMPDEST.
Proof.
  assert (Hno : no_jumpdest_in_immediates [x5b; x60; x00; x5b; x56; x5b]).
  { intros i Hi.
    do 6 (destruct i as [| i]; [first [discriminate Hi | reflexivity] |]).
    discriminate Hi. }
  split; [reflexivity |]. split; [exact Hno |].
  apply (jumpdest_offsets_roundtrip example_op_table EVMC_ISTANBUL
           [x5b; x60; x00; x5b; x56; x5b]); [reflexivity | exact Hno].
Defined.

Lemma jumpdest_index_invariants_witness :
  let code := [x5b; x60; x5b; x56; x5b; x5b; x00] in
  let a := analyze example_op_table EVMC_ISTANBUL code in
  code_analysis.jumpdest_offsets a = [0; 4; 5]
  /\ code_analysis.jumpdest_targets a = [0; 3; 4]
  /\ StronglySorted Z.lt (code_analysis.jumpdest_offsets a)
  /\ Forall (fun t =>
               0 <= t
               /\ exists ins,
                    code_analysis.instrs a !! Z.to_nat t = Some ins
                    /\ instruction.fn ins
                       = op_table_entry.fn
                           (example_op_table EVMC_ISTANBUL OPX_BEGINBLOCK))
       (code_analysis.jumpdest_targets a).
Proof.
  split; [reflexivity |]. split; [reflexivity |].
  apply (jumpdest_index_invariants example_op_table EVMC_ISTANBUL
           [x5b; x60; x5b; x56; x5b; x5b; x00]).
  reflexivity.
Defined.

Lemma analyze_instrs_in_bounds_witness :
  let code := [x56; x5b; x00] in
  let a := analyze example_op_table EVMC_PETERSBURG code in
  (2 <= length (code_analysis.instrs a))%nat
  /\ (exists ins, code_analysis.instrs a !! 0%nat = Some ins
                  /\ instruction.fn ins
                     = op_table_entry.fn
                         (example_op_table EVMC_PETERSBURG OPX_BEGINBLOCK))
  /\ (exists ins, last (code_analysis.instrs a) = Some ins
                  /\ instruction.fn ins
                     = op_table_entry.fn
                         (example_op_table EVMC_PETERSBURG OP_STOP))
  /\ Forall (fun t => 0 <= t < Z.of_nat (length (code_analysis.instrs a)))
       (code_analysis.jumpdest_targets a).
Proof.
  destruct (analyze_instrs_in_bounds example_op_table EVMC_PETERSBURG
              [x56; x5b; x00]) as (Hlen & Hfirst & Hlast & Htargets).
  repeat split; [exact Hlen | exact Hfirst | exact Hlast |].
  apply Htargets. reflexivity.
Defined.


(** ** Gas costs of blocks and instruction arguments *)

Section Gas.
Context {F : Type} (op_tbl : op_table F).

Lemma summary_from_cons (block : block_analysis.t) (o : op) (ops : list op) :
  summary_from op_tbl block (o :: ops)
  = summary_from op_tbl (account (op_tbl (op_code o)) block) ops.
Proof. reflexivity. Qed.

Lemma base_gas_cons (o : op) (ops : list op) :
  base_gas op_tbl (o :: ops)
  = op_table_entry.gas_cost (op_tbl (op_code o)) + base_gas op_tbl ops.
Proof. reflexivity. Qed.

Lemma base_gas_bound (ops : list op) :
  int16_gas_costs op_tbl ->
  - 32768 * Z.of_nat (length ops) <= base_gas op_tbl ops
  <= 32767 * Z.of_nat (length ops).
Proof.
  intros Hrange. induction ops as [| o ops IH]; [simpl; lia |].
  rewrite base_gas_cons, length_cons.
  specialize (Hrange (op_code o)). lia.
Qed.

Lemma base_gas_nonneg (ops : list op) :
  nonnegative_gas_costs op_tbl -> 0 <= base_gas op_tbl ops.
Proof.
  intros Hpos. induction ops as [| o ops IH]; [simpl; lia |].
  rewrite base_gas_cons. specialize (Hpos (op_code o)). lia.
Qed.

(** Without overflow of [int64_t], the gas counter of the accumulator is the
    sum of the base gas costs. *)
Lemma summary_gas_cost (ops : list op) :
  forall block : block_analysis.t,
    int16_gas_costs op_tbl ->
    Z.abs (block_analysis.gas_cost block) + 32768 * Z.of_nat (length ops)
      < 2 ^ 63 ->
    block_analysis.gas_cost (summary_from op_tbl block ops)
    = block_analysis.gas_cost block + base_gas op_tbl ops.
Proof.
  induction ops as [| o ops IH]; intros block Hrange Hsmall.
  - simpl. lia.
  - rewrite summary_from_cons, base_gas_cons.
    rewrite length_cons in Hsmall.
    pose proof (Hrange (op_code o)) as Ho.
    assert (Hstep : block_analysis.gas_cost (account (op_tbl (op_code o)) block)
                    = block_analysis.gas_cost block
                      + op_table_entry.gas_cost (op_tbl (op_code o))).
    { unfold account. cbn [block_analysis.gas_cost].
      apply to_int_small; [lia |]. change (2 ^ (64 - 1)) with (2 ^ 63). lia. }
    rewrite IH; [| done | rewrite Hstep; lia].
    rewrite Hstep. lia.
Qed.

Lemma clamp_uint32_min (x : Z) : 0 <= x -> clamp_uint32 x = Z.min x uint32_max.
Proof.
  intros Hx. unfold clamp_uint32, clamp, to_uint, uint32_max.
  destruct (x <=? 4294967295) eqn:Hle.
  - apply Z.leb_le in Hle. rewrite Z.mod_small by (change (2 ^ 32) with 4294967296; lia). lia.
  - apply Z.leb_gt in Hle. lia.
Qed.

Lemma block_length_le (blocks : list (list op)) (j : nat) (b : list op) :
  blocks !! j = Some b -> (length b <= length (concat blocks))%nat.
Proof.
  intros Hj. rewrite <- (take_drop_middle _ _ _ Hj).
  rewrite concat_app, concat_cons, !length_app. lia.
Qed.

Lemma decode_block_length (code : list byte) (j : nat) (b : list op) :
  basic_blocks (decode code) !! j = Some b -> (length b <= length code)%nat.
Proof.
  intros Hj. apply block_length_le in Hj. rewrite basic_blocks_concat in Hj.
  pose proof (decode_from_length code 0 0). unfold decode in Hj. lia.
Qed.

Lemma flat_map_block_lookup (blocks : list (list op)) (j i : nat)
    (b : list op) (x : instruction.t F) :
  blocks !! j = Some b ->
  block_instrs op_tbl b !! i = Some x ->
  flat_map (block_instrs op_tbl) blocks !! (begin_index op_tbl blocks j + i)%nat
  = Some x.
Proof.
  intros Hj Hi. unfold begin_index. set (n := length _).
  rewrite <- (take_drop_middle _ _ _ Hj).
  rewrite flat_map_app. subst n. rewrite lookup_app_r by lia.
  replace (_ + i - _)%nat with i by lia.
  cbn [flat_map]. by apply lookup_app_l_Some.
Qed.

Lemma block_body_lookup (b : list op) :
  forall (block : block_analysis.t) (k : nat) (o : op),
    b !! k = Some o ->
    is_jumpdest o = false ->
    block_body op_tbl block b !! body_index b k
    = Some (instr_of op_tbl (summary_from op_tbl block (take (S k) b)) o).
Proof.
  induction b as [| o' b IH]; intros block k o Hk Hjd; [done |].
  destruct k as [| k].
  - injection Hk as ->. unfold body_index.
    cbn [take filter length block_body]. rewrite Hjd. reflexivity.
  - change ((o' :: b) !! S k) with (b !! k) in Hk.
    specialize (IH (account (op_tbl (op_code o')) block) k o Hk Hjd).
    change (take (S (S k)) (o' :: b)) with (o' :: take (S k) b).
    rewrite summary_from_cons.
    unfold body_index in *.
    change (take (S k) (o' :: b)) with (o' :: take k b).
    cbn [block_body]. rewrite filter_cons.
    destruct (is_jumpdest o') eqn:Hjd'; case_decide; try done.
Qed.
End Gas.

Section Claims_gas.
Context {F R : Type} (get_op_table : R -> op_table F).

(** C1: the instruction vector is made of the basic blocks of the code, each
    a BEGINBLOCK followed by the instructions of its opcodes, and the
    [gas_cost] stored in the BEGINBLOCK of every block is the sum of the base
    gas costs of the opcodes of the block, clamped to the largest
    [uint32_t]. *)
Theorem block_gas_cost_sum (rev : R) (code : list byte) :
  let op_tbl := get_op_table rev in
  let blocks := basic_blocks (decode code) in
  let instrs := code_analysis.instrs (analyze get_op_table rev code) in
  int16_gas_costs op_tbl ->
  nonnegative_gas_costs op_tbl ->
  Z.of_nat (length code) < 2 ^ 48 ->
  instrs
  = flat_map (block_instrs op_tbl) blocks
    ++ [instruction.make (op_table_entry.fn (op_tbl OP_STOP))]
  /\ forall (j : nat) (b : list op),
       blocks !! j = Some b ->
       exists info : block_info.t,
         instrs !! begin_index op_tbl blocks j = Some (beginblock op_tbl info)
         /\ block_info.gas_cost info = Z.min (base_gas op_tbl b) uint32_max.
Proof.
  intros op_tbl blocks instrs Hrange Hpos Hsize.
  assert (Hinstrs : instrs
    = flat_map (block_instrs op_tbl) blocks
      ++ [instruction.make (op_table_entry.fn (op_tbl OP_STOP))]).
  { subst instrs. unfold analyze. fold op_tbl.
    rewrite analyze_with_reference. reflexivity. }
  split; [exact Hinstrs |].
  intros j b Hj. rewrite Hinstrs.
  eexists. split.
  - rewrite lookup_app_l by (by eapply begin_index_lt).
    by apply begin_index_lookup.
  - cbn [block_analysis.close block_info.gas_cost].
    pose proof (decode_block_length _ _ _ Hj) as Hlen.
    rewrite summary_gas_cost; [| done |].
    + cbn [block_analysis.make block_analysis.gas_cost]. rewrite Z.add_0_l.
      apply clamp_uint32_min. by apply base_gas_nonneg.
    + cbn [block_analysis.make block_analysis.gas_cost].
      change (2 ^ 63) with (32768 * 2 ^ 48). lia.
Qed.

Lemma gas_number_opcodes (opcode : byte) :
  opcode ∈ [OP_GAS; OP_CALL; OP_CALLCODE; OP_DELEGATECALL; OP_STATICCALL;
            OP_CREATE; OP_CREATE2; OP_SSTORE] ->
  switch_case opcode = case_gas_number /\ is_opcode opcode OP_JUMPDEST = false.
Proof.
  intros H. repeat (apply elem_of_cons in H as [-> | H]; [done |]).
  inversion H.
Qed.

(** C6: the instruction of GAS, CALL, CALLCODE, DELEGATECALL, STATICCALL,
    CREATE, CREATE2 or SSTORE carries in [arg.number] the base gas cost of
    its block up to and including itself, and the instruction of PC carries
    the offset of the opcode in the code. The opcode is number [k] of block
    number [j]. *)
Theorem gas_and_pc_arguments (rev : R) (code : list byte) (j k : nat)
    (b : list op) (o : op) :
  let op_tbl := get_op_table rev in
  let blocks := basic_blocks (decode code) in
  let index := (begin_index op_tbl blocks j + (1 + body_index b k))%nat in
  int16_gas_costs op_tbl ->
  Z.of_nat (length code) < 2 ^ 48 ->
  blocks !! j = Some b ->
  b !! k = Some o ->
  (op_code o ∈ [OP_GAS; OP_CALL; OP_CALLCODE; OP_DELEGATECALL; OP_STATICCALL;
                OP_CREATE; OP_CREATE2; OP_SSTORE] ->
   code_analysis.instrs (analyze get_op_table rev code) !! index
   = Some (instruction.mk (op_table_entry.fn (op_tbl (op_code o)))
             (arg_number (base_gas op_tbl (take (S k) b)))))
  /\ (op_code o = OP_PC ->
      code_analysis.instrs (analyze get_op_table rev code) !! index
      = Some (instruction.mk (op_table_entry.fn (op_tbl (op_code o)))
                (arg_number (op_offset o)))).
Proof.
  intros op_tbl blocks index Hrange Hsize Hj Hk.
  unfold analyze. fold op_tbl. rewrite analyze_with_reference.
  unfold reference_analysis. cbn [code_analysis.instrs]. fold blocks.
  assert (Hlookup : is_jumpdest o = false ->
    (flat_map (block_instrs op_tbl) blocks
     ++ [instruction.make (op_table_entry.fn (op_tbl OP_STOP))]) !! index
    = Some (instr_of op_tbl
              (summary_from op_tbl (block_analysis.make 0) (take (S k) b)) o)).
  { intros Hjd. apply lookup_app_l_Some.
    apply (flat_map_block_lookup op_tbl blocks j _ b); [done |].
    unfold block_instrs. change ((?x :: ?l) !! (1 + ?i)%nat) with (l !! i).
    by apply block_body_lookup. }
  split.
  - intros Hop. apply gas_number_opcodes in Hop as [Hcase Hjd].
    rewrite Hlookup by exact Hjd. unfold instr_of. rewrite Hcase.
    rewrite summary_gas_cost; [done | done |].
    cbn [block_analysis.make block_analysis.gas_cost].
    pose proof (decode_block_length _ _ _ Hj) as Hlen.
    rewrite length_take. change (2 ^ 63) with (32768 * 2 ^ 48). lia.
  - intros Hop. rewrite Hlookup by (unfold is_jumpdest; by rewrite Hop).
    unfold instr_of. rewrite Hop. reflexivity.
Qed.
End Claims_gas.

Lemma example_op_table_int16 (rev : revision) :
  int16_gas_costs (example_op_table rev).
Proof. intros opcode. destruct rev, opcode; vm_compute; split; discriminate. Qed.

Lemma example_op_table_nonnegative (rev : revision) :
  nonnegative_gas_costs (example_op_table rev).
Proof. intros opcode. destruct rev, opcode; vm_compute; discriminate. Qed.

Lemma block_gas_cost_sum_witness :
  let code := [x60; x05; x60; x03; x01] in
  let b := [mk_op 0 x60 [x05]; mk_op 2 x60 [x03]; mk_op 4 x01 []] in
  let op_tbl := example_op_table EVMC_ISTANBUL in
  let blocks := basic_blocks (decode code) in
  let instrs :=
    code_analysis.instrs (analyze example_op_table EVMC_ISTANBUL code) in
  blocks = [b]
  /\ base_gas op_tbl b = 9
  /\ instrs
     = flat_map (block_instrs op_tbl) blocks
       ++ [instruction.make (op_table_entry.fn (op_tbl OP_STOP))]
  /\ forall (j : nat) (b : list op),
       blocks !! j = Some b ->
       exists info : block_info.t,
         instrs !! begin_index op_tbl blocks j = Some (beginblock op_tbl info)
         /\ block_info.gas_cost info = Z.min (base_gas op_tbl b) uint32_max.
Proof.
  split; [reflexivity |]. split; [reflexivity |].
  apply (block_gas_cost_sum example_op_table EVMC_ISTANBUL
           [x60; x05; x60; x03; x01]).
  - apply example_op_table_int16.
  - apply example_op_table_nonnegative.
  - reflexivity.
Defined.

Lemma gas_and_pc_arguments_witness :
  let code := [x5b; x58; x60; x07; x5a] in
  let b := [mk_op 0 x5b []; mk_op 1 x58 []; mk_op 2 x60 [x07];
            mk_op 4 x5a []] in
  let op_tbl := example_op_table EVMC_ISTANBUL in
  let instrs :=
    code_analysis.instrs (analyze example_op_table EVMC_ISTANBUL code) in
  basic_blocks (decode code) !! 0%nat = Some b
  /\ instrs !! 3%nat
     = Some (instruction.mk (op_table_entry.fn (op_tbl OP_GAS)) (arg_number 8))
  /\ instrs !! 1%nat
     = Some (instruction.mk (op_table_entry.fn (op_tbl OP_PC)) (arg_number 1)).
Proof.
  split; [reflexivity |].
  split.
  - apply (gas_and_pc_arguments example_op_table EVMC_ISTANBUL
             [x5b; x58; x60; x07; x5a] 0 3
             [mk_op 0 x5b []; mk_op 1 x58 []; mk_op 2 x60 [x07]; mk_op 4 x5a []]
             (mk_op 4 x5a []));
      [apply example_op_table_int16 | reflexivity | reflexivity | reflexivity |].
    apply list_elem_of_here.
  - apply (gas_and_pc_arguments example_op_table EVMC_ISTANBUL
             [x5b; x58; x60; x07; x5a] 0 1
             [mk_op 0 x5b []; mk_op 1 x58 []; mk_op 2 x60 [x07]; mk_op 4 x5a []]
             (mk_op 1 x58 []));
      [apply example_op_table_int16 | reflexivity | reflexivity | reflexivity |].
    reflexivity.
Defined.

(** ** A small push cut short by the end of the code *)

Lemma small_push_opcodes (opcode : byte) :
  opcode_value OP_PUSH1 <= opcode_value opcode <= opcode_value OP_PUSH8 ->
  switch_case opcode = case_small_push.
Proof.
  intros [H1 H2].
  destruct opcode; try reflexivity; exfalso; cbv in H1, H2;
    first [by apply H1 | by apply H2].
Qed.

Lemma basic_blocks_snoc (ops : list op) (o : op) :
  is_terminator (op_code o) = false ->
  exists bs b, basic_blocks (ops ++ [o]) = bs ++ [b ++ [o]].
Proof.
  intros Hnt. induction ops as [| o' ops IH].
  - exists [], []. simpl. rewrite Hnt. reflexivity.
  - destruct IH as (bs & b & IH). cbn [app basic_blocks]. rewrite IH.
    destruct (is_terminator (op_code o') || starts_with_jumpdest (ops ++ [o])).
    + exists ([o'] :: bs), b. reflexivity.
    + destruct bs as [| b0 bs].
      * exists [], (o' :: b). reflexivity.
      * exists ((o' :: b0) :: bs), b. reflexivity.
Qed.

Section Small_push.
Context {F : Type} (op_tbl : op_table F).

Lemma summary_from_app (block : block_analysis.t) (l1 l2 : list op) :
  summary_from op_tbl block (l1 ++ l2)
  = summary_from op_tbl (summary_from op_tbl block l1) l2.
Proof. unfold summary_from. apply fold_left_app. Qed.

Lemma block_body_snoc (b : list op) (o : op) :
  forall block : block_analysis.t,
    block_body op_tbl block (b ++ [o])
    = block_body op_tbl block b
      ++ (if is_jumpdest o then []
          else [instr_of op_tbl (summary_from op_tbl block (b ++ [o])) o]).
Proof.
  induction b as [| o' b IH]; intros block.
  - cbn [app block_body]. rewrite app_nil_r. reflexivity.
  - cbn [app block_body]. rewrite IH, summary_from_cons, <- app_assoc.
    reflexivity.
Qed.

(** The instruction before the final STOP stands for the last opcode of
    the code, when that opcode is neither a terminator nor a JUMPDEST. *)
Lemma analyze_with_last_opcode (code : list byte) (o : op) :
  last (decode code) = Some o ->
  is_terminator (op_code o) = false ->
  is_jumpdest o = false ->
  exists block : block_analysis.t,
    let instrs := code_analysis.instrs (analyze_with op_tbl code) in
    instrs !! (length instrs - 2)%nat = Some (instr_of op_tbl block o).
Proof.
  intros Hlast Hnt Hjd.
  apply last_Some in Hlast as (ops & Hops).
  destruct (basic_blocks_snoc ops o Hnt) as (bs & b & Hblocks).
  rewrite analyze_with_reference. unfold reference_analysis.
  cbn [code_analysis.instrs]. rewrite Hops, Hblocks.
  rewrite flat_map_app. cbn [flat_map]. rewrite app_nil_r.
  unfold block_instrs at 2 4. rewrite block_body_snoc, Hjd.
  eexists. cbv zeta.
  set (pre := flat_map (block_instrs op_tbl) bs).
  set (bb := beginblock op_tbl _).
  set (body := block_body op_tbl (block_analysis.make 0) b).
  set (x := instr_of op_tbl _ o).
  replace ((pre ++ bb :: body ++ [x]) ++ [instruction.make (op_table_entry.fn (op_tbl OP_STOP))])
    with ((pre ++ bb :: body) ++ [x; instruction.make (op_table_entry.fn (op_tbl OP_STOP))]).
  2:{ rewrite <- !app_assoc. simpl. rewrite <- app_assoc. reflexivity. }
  rewrite length_app. cbn [length].
  replace (length (pre ++ bb :: body) + 2 - 2)%nat
    with (length (pre ++ bb :: body) + 0)%nat by lia.
  rewrite lookup_app_r by lia.
  replace (length (pre ++ bb :: body) + 0 - length (pre ++ bb :: body))%nat
    with 0%nat by lia.
  reflexivity.
Qed.
End Small_push.

Section Claims_small_push.
Context {F R : Type} (get_op_table : R -> op_table F).

(** C7: when the code ends in a PUSH1..PUSH8 whose immediate is cut short by
    the end of the code, the analysis still has an instruction for it (the
    one before the final STOP), and its [small_push_value] is the big-endian
    value of the bytes that are there, placed in the high-order bytes of
    the immediate, the missing low-order bytes being zero. *)
Theorem truncated_small_push (rev : R) (code : list byte) (o : op) :
  let op_tbl := get_op_table rev in
  let instrs := code_analysis.instrs (analyze get_op_table rev code) in
  let n := immediate_size (op_code o) in
  last (decode code) = Some o ->
  opcode_value OP_PUSH1 <= opcode_value (op_code o) <= opcode_value OP_PUSH8 ->
  (length (op_imm o) < n)%nat ->
  op_imm o = drop (S (Z.to_nat (op_offset o))) code
  /\ instrs !! (length instrs - 2)%nat
     = Some (instruction.mk (op_table_entry.fn (op_tbl (op_code o)))
               (arg_small_push_value
                  (big_endian (op_imm o)
                   * 256 ^ Z.of_nat (n - length (op_imm o))))).
Proof.
  intros op_tbl instrs n Hlast Hrange Htrunc.
  pose proof (small_push_opcodes _ Hrange) as Hcase.
  assert (Hnt : is_terminator (op_code o) = false).
  { destruct (is_terminator (op_code o)) eqn:Ht; [| done].
    apply switch_case_terminator in Ht. congruence. }
  assert (Hjd : is_jumpdest o = false).
  { unfold is_jumpdest. apply is_opcode_false. intros Heq.
    rewrite Heq in Hcase. discriminate Hcase. }
  split.
  - assert (Ho : o ∈ decode code).
    { apply last_Some in Hlast as (ops & ->).
      apply elem_of_app. right. apply list_elem_of_here. }
    destruct (decode_from_sound _ _ _ _ Ho) as (i & Hoff & _ & _ & Himm).
    replace (Z.to_nat (op_offset o)) with i by lia.
    fold n in Himm. rewrite Himm in Htrunc |- *.
    rewrite length_take in Htrunc. apply take_ge. lia.
  - destruct (analyze_with_last_opcode op_tbl code o Hlast Hnt Hjd)
      as (block & Hlookup).
    subst instrs. unfold analyze. fold op_tbl. cbv zeta in Hlookup.
    rewrite Hlookup. unfold instr_of. rewrite Hcase.
    unfold padded_immediate. fold n.
    rewrite big_endian_app, big_endian_zeros, length_replicate.
    do 3 f_equal. lia.
Qed.
End Claims_small_push.

Lemma truncated_small_push_witness :
  let code := [x01; x63; xab; xcd] in
  let o := mk_op 1 x63 [xab; xcd] in
  let instrs :=
    code_analysis.instrs (analyze example_op_table EVMC_ISTANBUL code) in
  last (decode code) = Some o
  /\ (length (op_imm o) < immediate_size (op_code o))%nat
  /\ instrs !! (length instrs - 2)%nat
     = Some (instruction.mk
               (op_table_entry.fn (example_op_table EVMC_ISTANBUL x63))
               (arg_small_push_value 2882338816)).
Proof.
  split; [reflexivity |]. split; [vm_compute; lia |].
  apply (truncated_small_push example_op_table EVMC_ISTANBUL
           [x01; x63; xab; xcd] (mk_op 1 x63 [xab; xcd])).
  - reflexivity.
  - vm_compute. split; discriminate.
  - vm_compute. lia.
Defined.

(** ** [find_jumpdest] *)

Lemma StronglySorted_lookup_lt (v : list Z) :
  StronglySorted Z.lt v ->
  forall (i j : nat) (x y : Z),
    v !! i = Some x -> v !! j = Some y -> (i < j)%nat -> x < y.
Proof.
  induction 1 as [| a v Hs IH Ha]; intros i j x y Hi Hj Hij; [done |].
  destruct j as [| j]; [lia |]. simpl in Hj.
  destruct i as [| i]; simpl in Hi.
  - injection Hi as <-. rewrite Forall_forall in Ha.
    apply Ha. eapply list_elem_of_lookup_2; eauto.
  - eapply IH; eauto. lia.
Qed.

Lemma StronglySorted_lookup_total_lt (v : list Z) (i j : nat) :
  StronglySorted Z.lt v -> (i < j < length v)%nat -> v !!! i < v !!! j.
Proof.
  intros Hs Hij.
  eapply (StronglySorted_lookup_lt v Hs i j); [| | lia];
    apply list_lookup_lookup_total_lt; lia.
Qed.

(** [std::lower_bound] on a sorted vector returns the first position of
    the range whose element is not below [value]. *)
Lemma lower_bound_spec (v : list Z) (value : Z) (fuel : nat) :
  forall first len : nat,
    StronglySorted Z.lt v ->
    (len <= fuel)%nat ->
    (first + len <= length v)%nat ->
    let r := lower_bound fuel v first len value in
    (first <= r <= first + len)%nat
    /\ (forall i : nat, (first <= i < r)%nat -> v !!! i < value)
    /\ (forall i : nat, (r <= i < first + len)%nat -> value <= v !!! i).
Proof.
  induction fuel as [| fuel IH]; intros first len Hs Hfuel Hlen r; subst r.
  - simpl. repeat split; intros; lia.
  - cbn [lower_bound]. destruct (0 <? len)%nat eqn:Hpos.
    2:{ apply Nat.ltb_ge in Hpos. repeat split; intros; lia. }
    apply Nat.ltb_lt in Hpos.
    pose proof (Nat.div_lt len 2 Hpos ltac:(lia)) as Hhalf.
    set (half := (len / 2)%nat) in *.
    destruct (v !!! (first + half)%nat <? value) eqn:Hcmp.
    + apply Z.ltb_lt in Hcmp.
      destruct (IH (first + half + 1)%nat (len - half - 1)%nat Hs) as (Hr & Hlo & Hhi);
        [lia | lia |].
      split; [lia |]. split.
      * intros i Hi.
        destruct (Nat.le_gt_cases i (first + half)%nat) as [Hle | Hgt].
        -- destruct (Nat.eq_dec i (first + half)%nat) as [-> | Hne]; [done |].
           pose proof (StronglySorted_lookup_total_lt v i (first + half)%nat Hs).
           lia.
        -- apply Hlo. lia.
      * intros i Hi. apply Hhi. lia.
    + apply Z.ltb_ge in Hcmp.
      destruct (IH first half Hs) as (Hr & Hlo & Hhi); [lia | lia |].
      split; [lia |]. split.
      * intros i Hi. apply Hlo. lia.
      * intros i Hi.
        destruct (Nat.lt_ge_cases i (first + half)%nat) as [Hlt | Hge].
        -- apply Hhi. lia.
        -- destruct (Nat.eq_dec i (first + half)%nat) as [-> | Hne]; [done |].
           pose proof (StronglySorted_lookup_total_lt v (first + half)%nat i Hs).
           lia.
Qed.

Section Find_jumpdest.
Context {F : Type}.

Lemma find_jumpdest_hit (a : code_analysis.t F) (offset : Z) (i : nat) :
  StronglySorted Z.lt (code_analysis.jumpdest_offsets a) ->
  code_analysis.jumpdest_offsets a !! i = Some offset ->
  find_jumpdest a offset = code_analysis.jumpdest_targets a !!! i.
Proof.
  intros Hs Hi. unfold find_jumpdest.
  set (v := code_analysis.jumpdest_offsets a) in *.
  destruct (lower_bound_spec v offset (length v) 0 (length v) Hs)
    as (Hr & Hlo & Hhi); [lia | lia |].
  set (r := lower_bound (length v) v 0 (length v) offset) in *.
  pose proof (lookup_lt_Some _ _ _ Hi) as Hlt.
  pose proof (list_lookup_total_correct _ _ _ Hi) as Hvi.
  assert (Hri : r = i).
  { destruct (Nat.lt_trichotomy r i) as [Hlt' | [Heq | Hgt]]; [| done |].
    - pose proof (StronglySorted_lookup_total_lt v r i Hs ltac:(lia)).
      pose proof (Hhi r ltac:(lia)). lia.
    - pose proof (Hlo i ltac:(lia)). lia. }
  rewrite Hri, Hvi, Z.eqb_refl.
  replace (i =? length v)%nat with false by (symmetry; apply Nat.eqb_neq; lia).
  reflexivity.
Qed.

Lemma find_jumpdest_miss (a : code_analysis.t F) (offset : Z) :
  StronglySorted Z.lt (code_analysis.jumpdest_offsets a) ->
  offset ∉ code_analysis.jumpdest_offsets a ->
  find_jumpdest a offset = -1.
Proof.
  intros Hs Hnot. unfold find_jumpdest.
  set (v := code_analysis.jumpdest_offsets a) in *.
  destruct (lower_bound_spec v offset (length v) 0 (length v) Hs)
    as (Hr & _ & _); [lia | lia |].
  set (r := lower_bound (length v) v 0 (length v) offset) in *.
  destruct (r =? length v)%nat eqn:Hend; [reflexivity |].
  destruct (v !!! r =? offset) eqn:Heq; [| reflexivity].
  exfalso. apply Hnot. apply Z.eqb_eq in Heq. rewrite <- Heq.
  apply list_elem_of_lookup_total_2.
  apply Nat.eqb_neq in Hend. lia.
Qed.
End Find_jumpdest.

Section Claims_find_jumpdest.
Context {F R : Type} (get_op_table : R -> op_table F).

(** C8: on an analysis made by [analyze], [find_jumpdest] returns
    [jumpdest_targets[i]] for the offset [jumpdest_offsets[i]], and -1 for an
    offset that is not in [jumpdest_offsets]; the JUMP and JUMPI handlers
    then go to the instruction of that index, respectively end the run with
    [BAD_JUMP_DESTINATION]. *)
Theorem find_jumpdest_spec (rev : R) (code : list byte) (offset : Z) :
  Z.of_nat (length code) < 2 ^ 30 ->
  let a := analyze get_op_table rev code in
  (forall i : nat,
     code_analysis.jumpdest_offsets a !! i = Some offset ->
     exists t : Z,
       code_analysis.jumpdest_targets a !! i = Some t
       /\ find_jumpdest a offset = t
       /\ forall state, jump_to a offset state = (Some (Z.to_nat t), state))
  /\ (offset ∉ code_analysis.jumpdest_offsets a ->
      find_jumpdest a offset = -1
      /\ forall state,
           jump_to a offset state
           = execution_state.exit EVMC_BAD_JUMP_DESTINATION state).
Proof.
  intros Hsize a.
  assert (Hs : StronglySorted Z.lt (code_analysis.jumpdest_offsets a))
    by (by apply analyze_with_offsets_sorted).
  pose proof (analyze_with_index_lengths (get_op_table rev) code) as Hlen.
  pose proof (analyze_with_targets (get_op_table rev) code Hsize) as Htargets.
  cbv zeta in Htargets. fold (analyze get_op_table rev code) in Hlen, Htargets.
  fold a in Hlen, Htargets.
  split.
  - intros i Hi.
    pose proof (lookup_lt_Some _ _ _ Hi) as Hlt. rewrite Hlen in Hlt.
    destruct (lookup_lt_is_Some_2 _ _ Hlt) as (t & Ht).
    pose proof (find_jumpdest_hit a offset i Hs Hi) as Hfind.
    rewrite (list_lookup_total_correct _ _ _ Ht) in Hfind.
    exists t. split; [done |]. split; [done |].
    intros state. unfold jump_to. rewrite Hfind.
    rewrite Forall_forall in Htargets.
    destruct (Htargets t (list_elem_of_lookup_2 _ _ _ Ht))
      as (j & b & _ & _ & Hpos).
    replace (t <? 0) with false by (symmetry; apply Z.ltb_ge; lia).
    reflexivity.
  - intros Hnot. pose proof (find_jumpdest_miss a offset Hs Hnot) as Hfind.
    split; [done |]. intros state. unfold jump_to. rewrite Hfind. reflexivity.
Qed.
End Claims_find_jumpdest.

Lemma find_jumpdest_spec_witness :
  let code := [x5b; x60; x5b; x56; x5b; x00] in
  let a := analyze example_op_table EVMC_ISTANBUL code in
  Z.of_nat (length code) < 2 ^ 30
  /\ (forall i : nat,
        code_analysis.jumpdest_offsets a !! i = Some 4 ->
        exists t : Z,
          code_analysis.jumpdest_targets a !! i = Some t
          /\ find_jumpdest a 4 = t
          /\ forall state, jump_to a 4 state = (Some (Z.to_nat t), state))
  /\ (4 ∉ code_analysis.jumpdest_offsets a ->
      find_jumpdest a 4 = -1
      /\ forall state,
           jump_to a 4 state
           = execution_state.exit EVMC_BAD_JUMP_DESTINATION state).
Proof.
  split; [reflexivity |].
  apply (find_jumpdest_spec example_op_table EVMC_ISTANBUL
           [x5b; x60; x5b; x56; x5b; x00] 4).
  reflexivity.
Defined.

(** ** The size of the instruction vector *)

Section Claims_size.
Context {F R : Type} (get_op_table : R -> op_table F).

(** C2: for the one-byte code STOP the instruction vector has four
    entries, BEGINBLOCK, STOP, BEGINBLOCK, STOP: more than [code_size + 1],
    the capacity that [analyze] reserves as [max_instrs_size], and more than
    [code_size + 2]. *)
Theorem stop_code_exceeds_max_instrs_size (rev : R) :
  let op_tbl := get_op_table rev in
  let code := [OP_STOP] in
  let instrs := code_analysis.instrs (analyze get_op_table rev code) in
  map instruction.fn instrs
  = [op_table_entry.fn (op_tbl OPX_BEGINBLOCK);
     op_table_entry.fn (op_tbl OP_STOP);
     op_table_entry.fn (op_tbl OPX_BEGINBLOCK);
     op_table_entry.fn (op_tbl OP_STOP)]
  /\ length instrs = 4%nat
  /\ (length code + 2 < length instrs)%nat.
Proof. cbv zeta. split; [reflexivity |]. split; [reflexivity |]. simpl. lia. Qed.

(** The bound that does hold: two entries for every byte of code, and two
    more. It is reached by a code made of terminators only. *)
Lemma analyze_instrs_size (rev : R) (code : list byte) :
  (length (code_analysis.instrs (analyze get_op_table rev code))
   <= 2 * length code + 2)%nat.
Proof. apply analyze_with_length. Qed.

Lemma terminators_instrs_size (rev : R) (n : nat) :
  length (code_analysis.instrs (analyze get_op_table rev (replicate n OP_STOP)))
  = (2 * n + 2)%nat.
Proof.
  unfold analyze. rewrite analyze_with_reference. unfold reference_analysis.
  cbn [code_analysis.instrs]. rewrite length_app. cbn [length].
  assert (H : forall pos,
    length (flat_map (block_instrs (get_op_table rev))
              (basic_blocks (decode_from 0 pos (replicate n OP_STOP))))
    = (2 * n + 1)%nat).
  { induction n as [| n IH]; intros pos; [reflexivity |].
    cbn [replicate]. rewrite decode_from_cons.
    change (immediate_size OP_STOP) with 0%nat. rewrite take_0, drop_0.
    cbn [basic_blocks op_code]. change (is_terminator OP_STOP) with true.
    cbn [orb flat_map]. rewrite length_app, IH. simpl. lia. }
  unfold decode. rewrite H. lia.
Qed.
End Claims_size.

(** ** The driver [execute] *)

Section Claims_execute.
Context {F R : Type} (call : @handler_semantics F)
  (get_op_table : R -> op_table F).

(** C3: the analysis of the one-byte code STOP is BEGINBLOCK, STOP,
    BEGINBLOCK, STOP; both blocks have gas cost 0, stack requirement 0 and
    stack growth 0; the run with 100 gas ends with SUCCESS and 100 gas left.
    The STOP entry of the table costs nothing and leaves the stack alone, and
    the BEGINBLOCK and STOP handlers behave as the specification says. *)
Theorem stop_code_analysis_and_run (rev : R) :
  let op_tbl := get_op_table rev in
  let stop := instruction.make (op_table_entry.fn (op_tbl OP_STOP)) in
  op_table_entry.gas_cost (op_tbl OP_STOP) = 0 ->
  op_table_entry.stack_req (op_tbl OP_STOP) = 0 ->
  op_table_entry.stack_change (op_tbl OP_STOP) = 0 ->
  (forall a i state,
     call (op_table_entry.fn (op_tbl OPX_BEGINBLOCK)) a i state
     = opx_beginblock a i state) ->
  (forall a i state,
     call (op_table_entry.fn (op_tbl OP_STOP)) a i state = op_stop a i state) ->
  code_analysis.instrs (analyze get_op_table rev [OP_STOP])
  = [beginblock op_tbl (block_info.mk 0 0 0); stop;
     beginblock op_tbl (block_info.mk 0 0 0); stop]
  /\ exists result : evmc_result.t,
       execute call get_op_table 2 rev (evmc_message.mk 100) [OP_STOP]
       = Some result
       /\ evmc_result.status_code result = EVMC_SUCCESS
       /\ evmc_result.gas_left result = 100.
Proof.
  intros op_tbl stop Hgas Hreq Hchange Hbegin Hstop.
  assert (Hinstrs :
    code_analysis.instrs (analyze get_op_table rev [OP_STOP])
    = [beginblock op_tbl (block_info.mk 0 0 0); stop;
       beginblock op_tbl (block_info.mk 0 0 0); stop]).
  { unfold analyze. fold op_tbl. rewrite analyze_with_reference.
    unfold reference_analysis. cbn [code_analysis.instrs].
    change (basic_blocks (decode [OP_STOP])) with [[mk_op 0 OP_STOP []]; []].
    cbn [flat_map block_instrs block_body summary_from fold_left app
         is_jumpdest op_code].
    unfold account, block_analysis.close, instr_of.
    cbn [block_analysis.make block_analysis.gas_cost block_analysis.stack_req
         block_analysis.stack_max_growth block_analysis.stack_change op_code].
    rewrite Hgas, Hreq, Hchange. reflexivity. }
  split; [exact Hinstrs |].
  unfold execute, execute_state.
  set (a := analyze get_op_table rev [OP_STOP]) in *.
  cbn [dispatch]. rewrite Hinstrs. cbn [lookup list_lookup].
  unfold beginblock at 1. cbn [instruction.fn]. rewrite Hbegin.
  unfold opx_beginblock. rewrite Hinstrs. cbn [lookup list_lookup].
  simpl. unfold stop. cbn [instruction.make instruction.fn].
  rewrite Hstop. simpl. eexists. split; [reflexivity |]. split; reflexivity.
Qed.

(** C9: when [execute] returns, the [gas_left] of the result is the
    remaining gas of the final state if the final status is SUCCESS or
    REVERT, and 0 for every other final status. Whenever the final state
    has gas left, the result therefore carries the state's remaining gas
    exactly when the status is SUCCESS or REVERT. *)
Theorem execute_gas_left (fuel : nat) (rev : R) (msg : evmc_message.t)
    (code : list byte) (result : evmc_result.t) :
  execute call get_op_table fuel rev msg code = Some result ->
  exists state : execution_state.t,
    execute_state call get_op_table fuel rev msg code = Some state
    /\ evmc_result.status_code result = execution_state.status state
    /\ (execution_state.status state = EVMC_SUCCESS
        \/ execution_state.status state = EVMC_REVERT ->
        evmc_result.gas_left result = execution_state.gas_left state)
    /\ (execution_state.status state <> EVMC_SUCCESS ->
        execution_state.status state <> EVMC_REVERT ->
        evmc_result.gas_left result = 0)
    /\ (execution_state.gas_left state <> 0 ->
        (evmc_result.gas_left result = execution_state.gas_left state
         <-> execution_state.status state = EVMC_SUCCESS
             \/ execution_state.status state = EVMC_REVERT)).
Proof.
  unfold execute. intros Hres.
  destruct (execute_state call get_op_table fuel rev msg code) as [state |];
    [| discriminate Hres].
  injection Hres as <-. exists state. split; [reflexivity |].
  unfold make_result. cbn [evmc_result.status_code evmc_result.gas_left].
  split; [reflexivity |]. split; [| split].
  - intros [-> | ->]; reflexivity.
  - intros Hs Hr. destruct (execution_state.status state); done.
  - intros Hgas. split.
    + intros Heq.
      destruct (execution_state.status state);
        first [by left | by right | by (exfalso; apply Hgas)].
    + intros [-> | ->]; reflexivity.
Qed.
End Claims_execute.

Lemma stop_code_analysis_and_run_witness :
  let op_tbl := example_op_table EVMC_ISTANBUL in
  let stop := instruction.make (op_table_entry.fn (op_tbl OP_STOP)) in
  code_analysis.instrs (analyze example_op_table EVMC_ISTANBUL [OP_STOP])
  = [beginblock op_tbl (block_info.mk 0 0 0); stop;
     beginblock op_tbl (block_info.mk 0 0 0); stop]
  /\ exists result : evmc_result.t,
       execute example_call example_op_table 2 EVMC_ISTANBUL
         (evmc_message.mk 100) [OP_STOP]
       = Some result
       /\ evmc_result.status_code result = EVMC_SUCCESS
       /\ evmc_result.gas_left result = 100.
Proof.
  apply (stop_code_analysis_and_run example_call example_op_table
           EVMC_ISTANBUL); reflexivity.
Defined.

(** The code STOP does not have three instructions. *)
Lemma stop_code_not_three_entries :
  ~ (length (code_analysis.instrs
               (analyze example_op_table EVMC_ISTANBUL [OP_STOP])) = 3%nat).
Proof. vm_compute. discriminate. Qed.

Lemma execute_gas_left_witness :
  let result :=
    evmc_result.mk EVMC_SUCCESS 100 [] 0 in
  execute example_call example_op_table 2 EVMC_ISTANBUL
    (evmc_message.mk 100) [OP_STOP] = Some result
  /\ exists state : execution_state.t,
       execute_state example_call example_op_table 2 EVMC_ISTANBUL
         (evmc_message.mk 100) [OP_STOP] = Some state
       /\ evmc_result.status_code result = execution_state.status state
       /\ (execution_state.status state = EVMC_SUCCESS
           \/ execution_state.status state = EVMC_REVERT ->
           evmc_result.gas_left result = execution_state.gas_left state)
       /\ (execution_state.status state <> EVMC_SUCCESS ->
           execution_state.status state <> EVMC_REVERT ->
           evmc_result.gas_left result = 0)
       /\ (execution_state.gas_left state <> 0 ->
           (evmc_result.gas_left result = execution_state.gas_left state
            <-> execution_state.status state = EVMC_SUCCESS
                \/ execution_state.status state = EVMC_REVERT)).
Proof.
  split; [reflexivity |].
  apply (execute_gas_left example_call example_op_table 2 EVMC_ISTANBUL
           (evmc_message.mk 100) [OP_STOP]).
  reflexivity.
Defined.

(** One undefined opcode run with 50 gas: the state ends with an error
    status, and the result has no gas left. *)
Example scenario_undefined_opcode :
  exists state : execution_state.t,
    execute_state example_call example_op_table 2 EVMC_ISTANBUL
      (evmc_message.mk 50) [x0c] = Some state
    /\ execution_state.status state <> EVMC_SUCCESS
    /\ execution_state.status state <> EVMC_REVERT
    /\ evmc_result.status_code (make_result state)
       = execution_state.status state
    /\ evmc_result.gas_left (make_result state) = 0.
Proof.
  eexists. split; [reflexivity |]. cbn. repeat split; discriminate.
Qed.

(** ** The scenarios of the specification, run on the instance *)

(** PUSH1 5, PUSH1 3, ADD: one block of gas cost 9 that needs no stack and
    grows it by 2; the small push values are 5 and 3. *)
Example scenario_push_add :
  code_analysis.instrs
    (analyze example_op_table EVMC_ISTANBUL [x60; x05; x60; x03; x01])
  = [beginblock (example_op_table EVMC_ISTANBUL) (block_info.mk 9 0 2);
     instruction.mk (fn_opcode x60) (arg_small_push_value 5);
     instruction.mk (fn_opcode x60) (arg_small_push_value 3);
     instruction.mk (fn_opcode x01) arg_default;
     instruction.mk (fn_opcode x00) arg_default].
Proof. reflexivity. Qed.

(** JUMPDEST, STOP: the JUMPDEST is the first opcode, so its target is the
    BEGINBLOCK at index 0. *)
Example scenario_jumpdest_stop :
  let a := analyze example_op_table EVMC_ISTANBUL [x5b; x00] in
  code_analysis.jumpdest_offsets a = [0]
  /\ code_analysis.jumpdest_targets a = [0].
Proof. split; reflexivity. Qed.

(** PUSH1 3, JUMP, JUMPDEST, STOP: the JUMPDEST at offset 3 is found, with
    the BEGINBLOCK at index 3 as its target; offset 0 is no destination. *)
Example scenario_jump :
  let a := analyze example_op_table EVMC_ISTANBUL [x60; x03; x56; x5b; x00] in
  map instruction.fn (code_analysis.instrs a)
  = [fn_opcode x5b; fn_opcode x60; fn_opcode x56; fn_opcode x5b;
     fn_opcode x00; fn_opcode x5b; fn_opcode x00]
  /\ find_jumpdest a 3 = 3
  /\ find_jumpdest a 0 = -1.
Proof. repeat split; reflexivity. Qed.

(** PUSH32 followed by ten bytes only: the analysis keeps the offset of the
    first immediate byte and stops at the end of the code. *)
Example scenario_truncated_push32 :
  code_analysis.instrs
    (analyze example_op_table EVMC_ISTANBUL
       [x7f; x01; x02; x03; x04; x05; x06; x07; x08; x09; x0a])
  = [beginblock (example_op_table EVMC_ISTANBUL) (block_info.mk 3 0 1);
     instruction.mk (fn_opcode x7f) (arg_push_value 1);
     instruction.mk (fn_opcode x00) arg_default].
Proof. reflexivity. Qed.

(** The empty code: a lone BEGINBLOCK and the final STOP, no jump
    destination. *)
Example scenario_empty_code :
  analyze example_op_table EVMC_ISTANBUL []
  = code_analysis.mk
      [beginblock (example_op_table EVMC_ISTANBUL) (block_info.mk 0 0 0);
       instruction.mk (fn_opcode x00) arg_default]
      0 [] [].
Proof. reflexivity. Qed.


(** * Further properties of the code *)

(** ** Block headers fit their fields *)

Lemma to_int_range (w x : Z) :
  0 < w -> - 2 ^ (w - 1) <= to_int w x < 2 ^ (w - 1).
Proof.
  intros Hw. unfold to_int.
  assert (H2 : 2 ^ w = 2 * 2 ^ (w - 1)).
  { rewrite <- Z.pow_succ_r by lia. f_equal. lia. }
  assert (0 < 2 ^ (w - 1)) by (apply Z.pow_pos_nonneg; lia).
  pose proof (Z.mod_pos_bound (x + 2 ^ (w - 1)) (2 ^ w) ltac:(lia)). lia.
Qed.

Lemma clamp_uint32_range (x : Z) : 0 <= clamp_uint32 x <= uint32_max.
Proof.
  unfold clamp_uint32, clamp, to_uint, uint32_max.
  destruct (x <=? 4294967295); [| lia].
  pose proof (Z.mod_pos_bound x (2 ^ 32) ltac:(lia)).
  change (2 ^ 32) with 4294967296 in *. lia.
Qed.

Lemma clamp_int16_nonneg (x : Z) :
  0 <= x -> clamp_int16 x = Z.min x int16_max.
Proof.
  intros Hx. unfold clamp_int16, clamp, int16_max.
  destruct (x <=? 32767) eqn:Hle.
  - apply Z.leb_le in Hle. rewrite to_int_small; [lia | lia |].
    change (2 ^ (16 - 1)) with 32768. lia.
  - apply Z.leb_gt in Hle. lia.
Qed.

Section Ranges.
Context {F : Type} (op_tbl : op_table F).

Lemma account_stack_nonneg (e : op_table_entry.t F) (block : block_analysis.t) :
  0 <= block_analysis.stack_req block ->
  0 <= block_analysis.stack_max_growth block ->
  0 <= block_analysis.stack_req (account e block)
  /\ 0 <= block_analysis.stack_max_growth (account e block).
Proof. unfold account. cbn. lia. Qed.

Lemma summary_stack_nonneg (ops : list op) :
  forall block : block_analysis.t,
    0 <= block_analysis.stack_req block ->
    0 <= block_analysis.stack_max_growth block ->
    0 <= block_analysis.stack_req (summary_from op_tbl block ops)
    /\ 0 <= block_analysis.stack_max_growth (summary_from op_tbl block ops).
Proof.
  induction ops as [| o ops IH]; intros block Hreq Hgrowth; [done |].
  rewrite summary_from_cons.
  destruct (account_stack_nonneg (op_tbl (op_code o)) block Hreq Hgrowth).
  by apply IH.
Qed.

Lemma close_in_range (block : block_analysis.t) :
  0 <= block_analysis.stack_req block ->
  0 <= block_analysis.stack_max_growth block ->
  block_info_in_range (block_analysis.close block).
Proof.
  intros Hreq Hgrowth. unfold block_info_in_range, block_analysis.close.
  cbn [block_info.gas_cost block_info.stack_req block_info.stack_max_growth].
  rewrite !clamp_int16_nonneg by done.
  pose proof (clamp_uint32_range (block_analysis.gas_cost block)).
  unfold int16_max. lia.
Qed.

Lemma block_body_args (ops : list op) :
  forall (block : block_analysis.t) (ins : instruction.t F) (info : block_info.t),
    ins ∈ block_body op_tbl block ops ->
    instruction.arg ins = arg_block info ->
    info = block_info.mk 0 0 0.
Proof.
  induction ops as [| o ops IH]; intros block ins info Hin Harg.
  - inversion Hin.
  - cbn [block_body] in Hin. apply elem_of_app in Hin as [Hin | Hin].
    + destruct (is_jumpdest o); [inversion Hin |].
      apply list_elem_of_singleton in Hin. subst ins.
      unfold instr_of in Harg. cbn [instruction.arg] in Harg.
      destruct (switch_case (op_code o)); try discriminate Harg;
        unfold arg_default in Harg; congruence.
    + eapply IH; eauto.
Qed.
End Ranges.

Section Extra_ranges.
Context {F R : Type} (get_op_table : R -> op_table F).

(** X1: whatever the opcode table and the code, every block header that
    [analyze] stores holds a gas cost of at most [UINT32_MAX] and a stack
    requirement and a stack growth between 0 and [INT16_MAX]. *)
Theorem analyze_block_info_in_range (rev : R) (code : list byte) :
  Forall (fun ins =>
            forall info : block_info.t,
              instruction.arg ins = arg_block info ->
              block_info_in_range info)
    (code_analysis.instrs (analyze get_op_table rev code)).
Proof.
  unfold analyze. set (op_tbl := get_op_table rev).
  rewrite analyze_with_reference. unfold reference_analysis.
  cbn [code_analysis.instrs].
  assert (Hzero : block_info_in_range (block_info.mk 0 0 0)).
  { unfold block_info_in_range, uint32_max, int16_max. cbn. lia. }
  apply Forall_app. split.
  - apply Forall_forall. intros ins Hin info Harg.
    apply list_elem_of_In, in_flat_map in Hin as (b & _ & Hin).
    apply list_elem_of_In in Hin. unfold block_instrs in Hin.
    apply elem_of_cons in Hin as [-> | Hin].
    + cbn [beginblock instruction.arg] in Harg. injection Harg as <-.
      apply close_in_range;
        apply (summary_stack_nonneg op_tbl b (block_analysis.make 0)); done.
    + rewrite (block_body_args op_tbl _ _ _ _ Hin Harg). exact Hzero.
  - apply Forall_singleton. intros info Harg.
    cbn in Harg. injection Harg as <-. exact Hzero.
Qed.
End Extra_ranges.

(** ** The stack bookkeeping of a block *)

Section Stack.
Context {F : Type} (op_tbl : op_table F).

Lemma stack_change_sum_cons (o : op) (ops : list op) :
  stack_change_sum op_tbl (o :: ops)
  = op_table_entry.stack_change (op_tbl (op_code o))
    + stack_change_sum op_tbl ops.
Proof. reflexivity. Qed.

Lemma stack_change_sum_bound (ops : list op) :
  int8_stack_effects op_tbl ->
  Z.abs (stack_change_sum op_tbl ops) <= 128 * Z.of_nat (length ops).
Proof.
  intros Hint. induction ops as [| o ops IH]; [simpl; lia |].
  rewrite stack_change_sum_cons, length_cons.
  destruct (Hint (op_code o)) as [_ Hc]. lia.
Qed.

(** One opcode, without overflow of [int]. *)
Lemma account_stack_exact (o : op) (block : block_analysis.t) :
  int8_stack_effects op_tbl ->
  Z.abs (block_analysis.stack_change block) + 256 < 2 ^ 31 ->
  let e := op_tbl (op_code o) in
  block_analysis.stack_req (account e block)
  = Z.max (block_analysis.stack_req block)
      (op_table_entry.stack_req e - block_analysis.stack_change block)
  /\ block_analysis.stack_change (account e block)
     = block_analysis.stack_change block + op_table_entry.stack_change e
  /\ block_analysis.stack_max_growth (account e block)
     = Z.max (block_analysis.stack_max_growth block)
         (block_analysis.stack_change block + op_table_entry.stack_change e).
Proof.
  intros Hint Hsmall e. destruct (Hint (op_code o)) as [Hr Hc]. fold e in Hr, Hc.
  unfold account.
  cbn [block_analysis.stack_req block_analysis.stack_change
       block_analysis.stack_max_growth].
  rewrite !to_int_small; [done | lia | | lia |];
    change (2 ^ (32 - 1)) with (2 ^ 31); lia.
Qed.

(** The requirement of a block is met by a stack height exactly when every
    opcode finds its operands. *)
Lemma summary_stack_req (ops : list op) :
  forall (block : block_analysis.t) (h : Z),
    int8_stack_effects op_tbl ->
    Z.abs (block_analysis.stack_change block)
      + 128 * (Z.of_nat (length ops) + 2) < 2 ^ 31 ->
    block_analysis.stack_req (summary_from op_tbl block ops) <= h
    <-> block_analysis.stack_req block <= h
        /\ forall (k : nat) (o : op),
             ops !! k = Some o ->
             op_table_entry.stack_req (op_tbl (op_code o))
             - (block_analysis.stack_change block
                + stack_change_sum op_tbl (take k ops)) <= h.
Proof.
  induction ops as [| o ops IH]; intros block h Hint Hsmall.
  - cbn [summary_from fold_left]. split; [| tauto].
    intros H. split; [done |]. intros k o' Hk. done.
  - rewrite summary_from_cons. rewrite length_cons in Hsmall.
    destruct (account_stack_exact o block Hint ltac:(lia)) as (Hreq & Hchange & _).
    destruct (Hint (op_code o)) as [_ Hc].
    rewrite IH by (done || rewrite Hchange; lia).
    rewrite Hreq, Hchange. split.
    + intros [Hmax Hall]. split; [lia |]. intros k o' Hk.
      destruct k as [| k].
      * injection Hk as <-. cbn [take stack_change_sum foldr]. lia.
      * change ((o :: ops) !! S k) with (ops !! k) in Hk.
        change (take (S k) (o :: ops)) with (o :: take k ops).
        rewrite stack_change_sum_cons. specialize (Hall k o' Hk). lia.
    + intros [Hb Hall]. split.
      * specialize (Hall 0%nat o eq_refl).
        cbn [take stack_change_sum foldr] in Hall. lia.
      * intros k o' Hk. specialize (Hall (S k) o' Hk).
        change (take (S k) (o :: ops)) with (o :: take k ops) in Hall.
        rewrite stack_change_sum_cons in Hall. lia.
Qed.

(** The growth of a block stays under a bound exactly when the height
    after every opcode does. *)
Lemma summary_stack_max_growth (ops : list op) :
  forall (block : block_analysis.t) (g : Z),
    int8_stack_effects op_tbl ->
    Z.abs (block_analysis.stack_change block)
      + 128 * (Z.of_nat (length ops) + 2) < 2 ^ 31 ->
    block_analysis.stack_max_growth (summary_from op_tbl block ops) <= g
    <-> block_analysis.stack_max_growth block <= g
        /\ forall k : nat,
             (1 <= k <= length ops)%nat ->
             block_analysis.stack_change block
             + stack_change_sum op_tbl (take k ops) <= g.
Proof.
  induction ops as [| o ops IH]; intros block g Hint Hsmall.
  - cbn [summary_from fold_left length]. split; [| tauto].
    intros H. split; [done |]. intros k Hk. lia.
  - rewrite summary_from_cons. rewrite length_cons in Hsmall.
    destruct (account_stack_exact o block Hint ltac:(lia)) as (_ & Hchange & Hgrowth).
    destruct (Hint (op_code o)) as [_ Hc].
    rewrite IH by (done || rewrite Hchange; lia).
    rewrite Hgrowth, Hchange. rewrite length_cons. split.
    + intros [Hmax Hall]. split; [lia |]. intros k Hk.
      destruct k as [| k]; [lia |].
      change (take (S k) (o :: ops)) with (o :: take k ops).
      rewrite stack_change_sum_cons.
      destruct k as [| k].
      * rewrite take_0. cbn [stack_change_sum foldr]. lia.
      * specialize (Hall (S k) ltac:(lia)). lia.
    + intros [Hb Hall]. split.
      * specialize (Hall 1%nat ltac:(lia)).
        change (take 1 (o :: ops)) with (o :: take 0 ops) in Hall.
        rewrite stack_change_sum_cons, take_0 in Hall.
        cbn [stack_change_sum foldr] in Hall. lia.
      * intros k Hk. specialize (Hall (S k) ltac:(lia)).
        change (take (S k) (o :: ops)) with (o :: take k ops) in Hall.
        rewrite stack_change_sum_cons in Hall. lia.
Qed.
End Stack.

Section Extra_stack.
Context {F R : Type} (get_op_table : R -> op_table F).

(** X2: the [stack_req] stored in the BEGINBLOCK of a block is the entry
    height that the block needs: a stack of [h] items reaches it exactly when
    every opcode of the block, at its turn, finds the items that its table
    entry requires. *)
Theorem block_stack_req_sufficient (rev : R) (code : list byte) (j : nat)
    (b : list op) (h : Z) :
  let op_tbl := get_op_table rev in
  let blocks := basic_blocks (decode code) in
  let instrs := code_analysis.instrs (analyze get_op_table rev code) in
  int8_stack_effects op_tbl ->
  Z.of_nat (length code) < 2 ^ 23 ->
  blocks !! j = Some b ->
  0 <= h < int16_max ->
  exists info : block_info.t,
    instrs !! begin_index op_tbl blocks j = Some (beginblock op_tbl info)
    /\ (block_info.stack_req info <= h <-> operands_available op_tbl b h).
Proof.
  intros op_tbl blocks instrs Hint Hsize Hj Hh.
  subst instrs. unfold analyze. fold op_tbl. rewrite analyze_with_reference.
  unfold reference_analysis. cbn [code_analysis.instrs]. fold blocks.
  eexists. split.
  - rewrite lookup_app_l by (by eapply begin_index_lt).
    by apply begin_index_lookup.
  - cbn [block_analysis.close block_info.stack_req].
    pose proof (decode_block_length _ _ _ Hj) as Hlen.
    destruct (summary_stack_nonneg op_tbl b (block_analysis.make 0))
      as [Hreq _]; [done | done |].
    rewrite clamp_int16_nonneg by exact Hreq.
    pose proof (summary_stack_req op_tbl b (block_analysis.make 0) h Hint) as Hiff.
    cbn [block_analysis.make block_analysis.stack_change
         block_analysis.stack_req] in Hiff.
    assert (Hsmall : Z.abs 0 + 128 * (Z.of_nat (length b) + 2) < 2 ^ 31).
    { change (2 ^ 31) with (256 * 2 ^ 23). change (2 ^ 23) with 8388608 in *. lia. }
    specialize (Hiff Hsmall). unfold operands_available, int16_max in *.
    split.
    + intros Hmin.
      assert (Hle : block_analysis.stack_req
                      (summary_from op_tbl (block_analysis.make 0) b) <= h) by lia.
      apply Hiff in Hle as [_ Hall]. intros k o Hk.
      specialize (Hall k o Hk). lia.
    + intros Hall.
      assert (Hle : block_analysis.stack_req
                      (summary_from op_tbl (block_analysis.make 0) b) <= h).
      { apply Hiff. split; [lia |]. intros k o Hk.
        specialize (Hall k o Hk). lia. }
      lia.
Qed.

(** X3: the [stack_max_growth] stored in the BEGINBLOCK of a block is the
    highest the stack climbs above its entry height: entered with [h] items,
    the stack stays within a limit at the entry and after every opcode of the
    block exactly when [h + stack_max_growth] is within that limit. *)
Theorem block_stack_max_growth_sufficient (rev : R) (code : list byte)
    (j : nat) (b : list op) (h limit : Z) :
  let op_tbl := get_op_table rev in
  let blocks := basic_blocks (decode code) in
  let instrs := code_analysis.instrs (analyze get_op_table rev code) in
  int8_stack_effects op_tbl ->
  Z.of_nat (length code) < 2 ^ 23 ->
  blocks !! j = Some b ->
  0 <= h ->
  limit < int16_max ->
  exists info : block_info.t,
    instrs !! begin_index op_tbl blocks j = Some (beginblock op_tbl info)
    /\ (h + block_info.stack_max_growth info <= limit
        <-> within_stack_limit op_tbl b h limit).
Proof.
  intros op_tbl blocks instrs Hint Hsize Hj Hh Hlimit.
  subst instrs. unfold analyze. fold op_tbl. rewrite analyze_with_reference.
  unfold reference_analysis. cbn [code_analysis.instrs]. fold blocks.
  eexists. split.
  - rewrite lookup_app_l by (by eapply begin_index_lt).
    by apply begin_index_lookup.
  - cbn [block_analysis.close block_info.stack_max_growth].
    pose proof (decode_block_length _ _ _ Hj) as Hlen.
    destruct (summary_stack_nonneg op_tbl b (block_analysis.make 0))
      as [_ Hgrowth]; [done | done |].
    rewrite clamp_int16_nonneg by exact Hgrowth.
    pose proof (summary_stack_max_growth op_tbl b (block_analysis.make 0)
                  (limit - h) Hint) as Hiff.
    cbn [block_analysis.make block_analysis.stack_change
         block_analysis.stack_max_growth] in Hiff.
    assert (Hsmall : Z.abs 0 + 128 * (Z.of_nat (length b) + 2) < 2 ^ 31).
    { change (2 ^ 31) with (256 * 2 ^ 23). change (2 ^ 23) with 8388608 in *. lia. }
    specialize (Hiff Hsmall). unfold within_stack_limit, int16_max in *.
    split.
    + intros Hmin.
      assert (Hle : block_analysis.stack_max_growth
                      (summary_from op_tbl (block_analysis.make 0) b)
                    <= limit - h) by lia.
      apply Hiff in Hle as [H0 Hall]. intros k Hk.
      destruct k as [| k].
      * rewrite take_0. cbn [stack_change_sum foldr]. lia.
      * specialize (Hall (S k) ltac:(lia)). lia.
    + intros Hall.
      assert (Hle : block_analysis.stack_max_growth
                      (summary_from op_tbl (block_analysis.make 0) b)
                    <= limit - h).
      { apply Hiff. split.
        - specialize (Hall 0%nat ltac:(lia)). rewrite take_0 in Hall.
          cbn [stack_change_sum foldr] in Hall. lia.
        - intros k Hk. specialize (Hall k ltac:(lia)). lia. }
      lia.
Qed.
End Extra_stack.

Lemma example_op_table_int8 (rev : revision) :
  int8_stack_effects (example_op_table rev).
Proof.
  intros opcode. destruct rev, opcode; vm_compute; repeat split; discriminate.
Qed.

Lemma block_stack_req_sufficient_witness :
  let code := [x60; x05; x01; x01] in
  let b := [mk_op 0 x60 [x05]; mk_op 2 x01 []; mk_op 3 x01 []] in
  let op_tbl := example_op_table EVMC_ISTANBUL in
  let blocks := basic_blocks (decode code) in
  let instrs :=
    code_analysis.instrs (analyze example_op_table EVMC_ISTANBUL code) in
  blocks !! 0%nat = Some b
  /\ instrs !! 0%nat = Some (beginblock op_tbl (block_info.mk 9 2 1))
  /\ exists info : block_info.t,
       instrs !! begin_index op_tbl blocks 0 = Some (beginblock op_tbl info)
       /\ (block_info.stack_req info <= 2 <-> operands_available op_tbl b 2).
Proof.
  split; [reflexivity |]. split; [reflexivity |].
  apply (block_stack_req_sufficient example_op_table EVMC_ISTANBUL
           [x60; x05; x01; x01] 0).
  - apply example_op_table_int8.
  - reflexivity.
  - reflexivity.
  - unfold int16_max. lia.
Defined.

Lemma block_stack_max_growth_sufficient_witness :
  let code := [x60; x05; x60; x03; x01] in
  let b := [mk_op 0 x60 [x05]; mk_op 2 x60 [x03]; mk_op 4 x01 []] in
  let op_tbl := example_op_table EVMC_ISTANBUL in
  let blocks := basic_blocks (decode code) in
  let instrs :=
    code_analysis.instrs (analyze example_op_table EVMC_ISTANBUL code) in
  blocks !! 0%nat = Some b
  /\ exists info : block_info.t,
       instrs !! begin_index op_tbl blocks 0 = Some (beginblock op_tbl info)
       /\ (1023 + block_info.stack_max_growth info <= 1024
           <-> within_stack_limit op_tbl b 1023 1024).
Proof.
  split; [reflexivity |].
  apply (block_stack_max_growth_sufficient example_op_table EVMC_ISTANBUL
           [x60; x05; x60; x03; x01] 0).
  - apply example_op_table_int8.
  - reflexivity.
  - reflexivity.
  - lia.
  - unfold int16_max. lia.
Defined.

(** ** The instructions of the opcodes *)

Section Instructions.
Context {F : Type} (op_tbl : op_table F).

Lemma block_body_length_exact (ops : list op) :
  forall block : block_analysis.t,
    length (block_body op_tbl block ops)
    = length (filter (fun o => is_jumpdest o = false) ops).
Proof.
  induction ops as [| o ops IH]; intros block; [done |].
  cbn [block_body]. rewrite length_app, IH, filter_cons.
  destruct (is_jumpdest o); case_decide; done.
Qed.

Lemma flat_map_block_instrs_length_exact (blocks : list (list op)) :
  length (flat_map (block_instrs op_tbl) blocks)
  = (length blocks
     + length (filter (fun o => is_jumpdest o = false) (concat blocks)))%nat.
Proof.
  induction blocks as [| b blocks IH]; [done |].
  cbn [flat_map concat]. rewrite length_app, IH, filter_app, length_app.
  unfold block_instrs. cbn [length]. rewrite block_body_length_exact. lia.
Qed.

(** The instruction of opcode number [k] of block number [j]. *)
Lemma analyze_with_instr_lookup (code : list byte) (j k : nat) (b : list op)
    (o : op) :
  basic_blocks (decode code) !! j = Some b ->
  b !! k = Some o ->
  is_jumpdest o = false ->
  code_analysis.instrs (analyze_with op_tbl code)
    !! (begin_index op_tbl (basic_blocks (decode code)) j
        + (1 + body_index b k))%nat
  = Some (instr_of op_tbl
            (summary_from op_tbl (block_analysis.make 0) (take (S k) b)) o).
Proof.
  intros Hj Hk Hjd. rewrite analyze_with_reference.
  unfold reference_analysis. cbn [code_analysis.instrs].
  apply lookup_app_l_Some.
  apply (flat_map_block_lookup op_tbl _ j _ b); [done |].
  unfold block_instrs. change ((?x :: ?l) !! (1 + ?i)%nat) with (l !! i).
  by apply block_body_lookup.
Qed.

Lemma block_opcode_decoded (code : list byte) (j k : nat) (b : list op)
    (o : op) :
  basic_blocks (decode code) !! j = Some b ->
  b !! k = Some o ->
  o ∈ decode code.
Proof.
  intros Hj Hk. rewrite <- (basic_blocks_concat (decode code)).
  apply list_elem_of_In, in_concat. exists b. split; apply list_elem_of_In.
  - by eapply list_elem_of_lookup_2.
  - by eapply list_elem_of_lookup_2.
Qed.
End Instructions.

Section Extra_instructions.
Context {F R : Type} (get_op_table : R -> op_table F).

(** X4: the instruction vector has one BEGINBLOCK for every basic block,
    one instruction for every opcode that is not a JUMPDEST, and the final
    STOP. It never has more than [2 * code_size + 2] entries, and a code of
    [n] STOPs has exactly [2 * n + 2]. *)
Theorem analyze_instrs_count (rev : R) (code : list byte) :
  let instrs := code_analysis.instrs (analyze get_op_table rev code) in
  length instrs
  = (length (basic_blocks (decode code))
     + length (filter (fun o => is_jumpdest o = false) (decode code))
     + 1)%nat
  /\ (length instrs <= 2 * length code + 2)%nat
  /\ forall n : nat,
       length (code_analysis.instrs
                 (analyze get_op_table rev (replicate n OP_STOP)))
       = (2 * n + 2)%nat.
Proof.
  intros instrs. split; [| split].
  - subst instrs. unfold analyze. rewrite analyze_with_reference.
    unfold reference_analysis. cbn [code_analysis.instrs].
    rewrite length_app, flat_map_block_instrs_length_exact.
    rewrite basic_blocks_concat. reflexivity.
  - apply analyze_instrs_size.
  - intros n. apply terminators_instrs_size.
Qed.

(** X5: the instruction of every PUSH1..PUSH8, wherever it stands in the
    code, carries in [small_push_value] the big-endian value of its
    immediate: the bytes of the code after the opcode, as many as the push
    size or as are left, followed by zero bytes for the ones that are
    missing. The value fits 64 bits. *)
Theorem small_push_value_big_endian (rev : R) (code : list byte) (j k : nat)
    (b : list op) (o : op) :
  let op_tbl := get_op_table rev in
  let blocks := basic_blocks (decode code) in
  let n := immediate_size (op_code o) in
  let value :=
    big_endian (op_imm o) * 256 ^ Z.of_nat (n - length (op_imm o)) in
  blocks !! j = Some b ->
  b !! k = Some o ->
  opcode_value OP_PUSH1 <= opcode_value (op_code o) <= opcode_value OP_PUSH8 ->
  code_analysis.instrs (analyze get_op_table rev code)
    !! (begin_index op_tbl blocks j + (1 + body_index b k))%nat
  = Some (instruction.mk (op_table_entry.fn (op_tbl (op_code o)))
            (arg_small_push_value value))
  /\ op_imm o = take n (drop (S (Z.to_nat (op_offset o))) code)
  /\ 0 <= value < 2 ^ 64.
Proof.
  intros op_tbl blocks n value Hj Hk Hrange.
  pose proof (small_push_opcodes _ Hrange) as Hcase.
  assert (Hjd : is_jumpdest o = false).
  { unfold is_jumpdest. apply is_opcode_false. intros Heq.
    rewrite Heq in Hcase. discriminate Hcase. }
  pose proof (block_opcode_decoded code j k b o Hj Hk) as Ho.
  destruct (decode_from_sound _ _ _ _ Ho) as (i & Hoff & _ & _ & Himm).
  fold n in Himm.
  assert (Hvalue : big_endian (padded_immediate o) = value).
  { unfold padded_immediate. fold n.
    rewrite big_endian_app, big_endian_zeros, length_replicate.
    subst value. lia. }
  split; [| split].
  - unfold analyze. fold op_tbl. subst blocks.
    rewrite (analyze_with_instr_lookup op_tbl code j k b o Hj Hk Hjd).
    unfold instr_of. rewrite Hcase, Hvalue. reflexivity.
  - replace (Z.to_nat (op_offset o)) with i by lia. exact Himm.
  - rewrite <- Hvalue.
    pose proof (big_endian_bound (padded_immediate o)) as Hb.
    pose proof (switch_case_immediate (op_code o)) as Hsz.
    rewrite Hcase in Hsz. fold n in Hsz. destruct Hsz as [Hsz Hn].
    assert (Hlen : (length (padded_immediate o) <= 8)%nat).
    { unfold padded_immediate. fold n.
      rewrite length_app, length_replicate, Himm, length_take. lia. }
    split; [lia |].
    eapply Z.lt_le_trans; [apply Hb |].
    change (2 ^ 64) with (256 ^ 8). apply Z.pow_le_mono_r; lia.
Qed.

(** X6: the instruction of every PUSH9..PUSH32 carries in [push_value] the
    offset of the byte after the opcode, which is never past [code_end],
    even when the immediate is cut short by the end of the code. *)
Theorem large_push_value_in_code (rev : R) (code : list byte) (j k : nat)
    (b : list op) (o : op) :
  let op_tbl := get_op_table rev in
  let blocks := basic_blocks (decode code) in
  let a := analyze get_op_table rev code in
  blocks !! j = Some b ->
  b !! k = Some o ->
  opcode_value OP_PUSH9 <= opcode_value (op_code o) <= opcode_value OP_PUSH32 ->
  code_analysis.instrs a
    !! (begin_index op_tbl blocks j + (1 + body_index b k))%nat
  = Some (instruction.mk (op_table_entry.fn (op_tbl (op_code o)))
            (arg_push_value (op_offset o + 1)))
  /\ code !! Z.to_nat (op_offset o) = Some (op_code o)
  /\ 0 < op_offset o + 1 <= code_analysis.code_end a.
Proof.
  intros op_tbl blocks a Hj Hk Hrange.
  assert (Hcase : switch_case (op_code o) = case_large_push).
  { destruct Hrange as [H1 H2].
    destruct (op_code o); try reflexivity; exfalso; cbv in H1, H2;
      first [by apply H1 | by apply H2]. }
  assert (Hjd : is_jumpdest o = false).
  { unfold is_jumpdest. apply is_opcode_false. intros Heq.
    rewrite Heq in Hcase. discriminate Hcase. }
  pose proof (block_opcode_decoded code j k b o Hj Hk) as Ho.
  destruct (decode_from_sound _ _ _ _ Ho) as (i & Hoff & Hcode & _ & _).
  pose proof (lookup_lt_Some _ _ _ Hcode) as Hlt.
  split; [| split].
  - subst a blocks. unfold analyze. fold op_tbl.
    rewrite (analyze_with_instr_lookup op_tbl code j k b o Hj Hk Hjd).
    unfold instr_of. rewrite Hcase. reflexivity.
  - replace (Z.to_nat (op_offset o)) with i by lia. exact Hcode.
  - subst a. unfold analyze. rewrite analyze_with_reference.
    unfold reference_analysis. cbn [code_analysis.code_end]. lia.
Qed.
End Extra_instructions.

Lemma small_push_value_big_endian_witness :
  let code := [x61; x12; x34; x00; x62; xab] in
  let op_tbl := example_op_table EVMC_ISTANBUL in
  let instrs :=
    code_analysis.instrs (analyze example_op_table EVMC_ISTANBUL code) in
  basic_blocks (decode code) !! 1%nat = Some [mk_op 4 x62 [xab]]
  /\ instrs !! 1%nat
     = Some (instruction.mk (fn_opcode x61) (arg_small_push_value 4660))
  /\ instrs !! 4%nat
     = Some (instruction.mk (fn_opcode x62) (arg_small_push_value 11206656)).
Proof.
  split; [reflexivity |]. split.
  - apply (small_push_value_big_endian example_op_table EVMC_ISTANBUL
             [x61; x12; x34; x00; x62; xab] 0 0
             [mk_op 0 x61 [x12; x34]; mk_op 3 x00 []]
             (mk_op 0 x61 [x12; x34])); [reflexivity | reflexivity |].
    vm_compute. split; discriminate.
  - apply (small_push_value_big_endian example_op_table EVMC_ISTANBUL
             [x61; x12; x34; x00; x62; xab] 1 0
             [mk_op 4 x62 [xab]] (mk_op 4 x62 [xab]));
      [reflexivity | reflexivity |].
    vm_compute. split; discriminate.
Defined.

Lemma large_push_value_in_code_witness :
  let code := [x5b; x7f; x01; x02] in
  let a := analyze example_op_table EVMC_ISTANBUL code in
  code_analysis.instrs a !! 1%nat
  = Some (instruction.mk (fn_opcode x7f) (arg_push_value 2))
  /\ code !! 1%nat = Some x7f
  /\ 0 < 2 <= code_analysis.code_end a.
Proof.
  apply (large_push_value_in_code example_op_table EVMC_ISTANBUL
           [x5b; x7f; x01; x02] 0 1
           [mk_op 0 x5b []; mk_op 1 x7f [x01; x02]]
           (mk_op 1 x7f [x01; x02])); [reflexivity | reflexivity |].
  vm_compute. split; discriminate.
Defined.

(** ** Jump destinations and their blocks *)

Lemma filter_jumpdest_none (ops : list op) :
  Forall (fun o => is_jumpdest o = false) ops ->
  filter (fun o => is_jumpdest o = true) ops = [].
Proof.
  induction 1 as [| o ops Ho _ IH]; [done |].
  rewrite filter_cons. case_decide; [congruence | done].
Qed.

Section Targets.
Context {F : Type} (op_tbl : op_table F).

(** Offset number [i] and target number [i] belong to the same block: the
    offset is the one of its first opcode, a JUMPDEST, and the target is the
    index of its BEGINBLOCK. *)
Lemma block_targets_offsets (blocks : list (list op)) :
  forall (pre : list (list op)) (i : nat) (offset target : Z),
    Forall (fun b => Forall (fun o => is_jumpdest o = false) (tail b)) blocks ->
    map (fun o => to_int 32 (op_offset o))
      (filter (fun o => is_jumpdest o = true) (concat blocks)) !! i
    = Some offset ->
    block_targets op_tbl (length (flat_map (block_instrs op_tbl) pre)) blocks
      !! i = Some target ->
    exists (j : nat) (o : op) (rest : list op),
      (pre ++ blocks) !! j = Some (o :: rest)
      /\ is_jumpdest o = true
      /\ offset = to_int 32 (op_offset o)
      /\ target = to_int 32 (Z.of_nat (begin_index op_tbl (pre ++ blocks) j)).
Proof.
  induction blocks as [| b blocks IH]; intros pre i offset target Hfirst Hoff Ht;
    [done |].
  apply Forall_cons in Hfirst as [Hb Hfirst].
  cbn [concat block_targets] in Hoff, Ht.
  rewrite filter_app in Hoff.
  assert (Hnext : forall i,
    map (fun o => to_int 32 (op_offset o))
      (filter (fun o => is_jumpdest o = true) (concat blocks)) !! i
    = Some offset ->
    block_targets op_tbl
      (length (flat_map (block_instrs op_tbl) pre)
       + length (block_instrs op_tbl b)) blocks !! i = Some target ->
    exists (j : nat) (o : op) (rest : list op),
      (pre ++ b :: blocks) !! j = Some (o :: rest)
      /\ is_jumpdest o = true
      /\ offset = to_int 32 (op_offset o)
      /\ target
         = to_int 32 (Z.of_nat (begin_index op_tbl (pre ++ b :: blocks) j))).
  { intros i' Hoff' Ht'. specialize (IH (pre ++ [b]) i' offset target Hfirst Hoff').
    rewrite flat_map_app, length_app in IH. cbn [flat_map] in IH.
    rewrite app_nil_r in IH. rewrite <- app_assoc in IH. by apply IH. }
  destruct b as [| o rest].
  - cbn [starts_with_jumpdest filter app] in Hoff, Ht. by apply (Hnext i).
  - cbn [tail] in Hb. rewrite filter_cons in Hoff.
    rewrite (filter_jumpdest_none rest Hb) in Hoff.
    cbn [starts_with_jumpdest] in Ht.
    destruct (is_jumpdest o) eqn:Hjd.
    + rewrite decide_True in Hoff by done.
      destruct i as [| i].
      * cbn in Hoff, Ht. injection Hoff as <-. injection Ht as <-.
        exists (length pre), o, rest. split; [by rewrite list_lookup_middle |].
        split; [done |]. split; [done |].
        unfold begin_index. rewrite take_app_length. reflexivity.
      * cbn [app map] in Hoff, Ht.
        change ((?x :: ?l) !! S i) with (l !! i) in Hoff, Ht.
        by apply (Hnext i).
    + rewrite decide_False in Hoff by congruence.
      cbn [app] in Hoff, Ht. by apply (Hnext i).
Qed.

(** The recorded targets are strictly ascending: two JUMPDESTs never share
    a BEGINBLOCK. *)
Lemma block_targets_sorted (blocks : list (list op)) :
  forall index : nat,
    Z.of_nat (index + length (flat_map (block_instrs op_tbl) blocks)) < 2 ^ 31 ->
    StronglySorted Z.lt (block_targets op_tbl index blocks)
    /\ Forall (fun t => Z.of_nat index <= t) (block_targets op_tbl index blocks).
Proof.
  induction blocks as [| b blocks IH]; intros index Hsmall.
  - split; constructor.
  - cbn [block_targets flat_map] in *. rewrite length_app in Hsmall.
    destruct (IH (index + length (block_instrs op_tbl b))%nat ltac:(lia))
      as [Hs Hge].
    assert (Hlen : (1 <= length (block_instrs op_tbl b))%nat)
      by (unfold block_instrs; cbn [length]; lia).
    assert (Hidx : to_int 32 (Z.of_nat index) = Z.of_nat index).
    { apply to_int_small; [lia |]. change (2 ^ (32 - 1)) with (2 ^ 31). lia. }
    destruct (starts_with_jumpdest b); cbn [app].
    + split.
      * constructor; [exact Hs |]. eapply Forall_impl; [exact Hge |].
        cbv beta. intros t Ht. lia.
      * constructor; [lia |]. eapply Forall_impl; [exact Hge |].
        cbv beta. intros t Ht. lia.
    + split; [exact Hs |]. eapply Forall_impl; [exact Hge |].
      cbv beta. intros t Ht. lia.
Qed.
End Targets.

Section Extra_jumpdests.
Context {F R : Type} (get_op_table : R -> op_table F).

(** X7: the two vectors of the jump-destination index go together: entry
    [i] of [jumpdest_targets] is the index of the BEGINBLOCK of the very
    block whose first opcode is the JUMPDEST at offset [jumpdest_offsets[i]]. *)
Theorem jumpdest_target_of_offset (rev : R) (code : list byte) (i : nat)
    (offset target : Z) :
  let op_tbl := get_op_table rev in
  let blocks := basic_blocks (decode code) in
  let a := analyze get_op_table rev code in
  Z.of_nat (length code) < 2 ^ 30 ->
  code_analysis.jumpdest_offsets a !! i = Some offset ->
  code_analysis.jumpdest_targets a !! i = Some target ->
  exists (j : nat) (o : op) (rest : list op),
    blocks !! j = Some (o :: rest)
    /\ op_code o = OP_JUMPDEST
    /\ op_offset o = offset
    /\ code !! Z.to_nat offset = Some OP_JUMPDEST
    /\ target = Z.of_nat (begin_index op_tbl blocks j)
    /\ code_analysis.instrs a !! Z.to_nat target
       = Some (beginblock op_tbl
                 (block_analysis.close
                    (summary_from op_tbl (block_analysis.make 0) (o :: rest)))).
Proof.
  intros op_tbl blocks a Hsize Hoff Ht.
  subst a. unfold analyze in *. fold op_tbl in Hoff, Ht |- *.
  rewrite analyze_with_reference in Hoff, Ht |- *.
  unfold reference_analysis in Hoff, Ht |- *.
  cbn [code_analysis.jumpdest_offsets code_analysis.jumpdest_targets
       code_analysis.instrs] in Hoff, Ht |- *.
  fold blocks in Ht |- *.
  rewrite <- (basic_blocks_concat (decode code)) in Hoff. fold blocks in Hoff.
  destruct (block_targets_offsets op_tbl blocks [] i offset target
              (basic_blocks_jumpdest_first (decode code)) Hoff Ht)
    as (j & o & rest & Hj & Hjd & -> & ->).
  cbn [app] in Hj |- *.
  assert (Ho : o ∈ decode code).
  { rewrite <- (basic_blocks_concat (decode code)).
    apply list_elem_of_In, in_concat. exists (o :: rest).
    split; apply list_elem_of_In;
      [by eapply list_elem_of_lookup_2 | apply list_elem_of_here]. }
  destruct (decode_from_sound _ _ _ _ Ho) as (n & Hn & Hcode & _ & _).
  pose proof (lookup_lt_Some _ _ _ Hcode) as Hlt.
  apply is_opcode_true in Hjd.
  pose proof (begin_index_lt op_tbl _ _ _ Hj) as Hblt.
  pose proof (analyze_with_length op_tbl code) as Hlen.
  rewrite analyze_with_reference in Hlen. unfold reference_analysis in Hlen.
  cbn [code_analysis.instrs] in Hlen. rewrite length_app in Hlen.
  fold blocks in Hlen. cbn [length] in Hlen.
  rewrite !to_int_small; [| lia | change (2 ^ (32 - 1)) with (2 ^ 31);
    change (2 ^ 30) with 1073741824 in Hsize; lia ..].
  exists j, o, rest. split; [done |]. split; [done |]. split; [done |].
  split; [| split; [done |]].
  - replace (Z.to_nat (op_offset o)) with n by lia. congruence.
  - rewrite Nat2Z.id. rewrite lookup_app_l by done.
    by apply begin_index_lookup.
Qed.

(** X8: [jumpdest_targets] is strictly ascending: different JUMPDESTs have
    different BEGINBLOCKs. *)
Theorem jumpdest_targets_ascending (rev : R) (code : list byte) :
  Z.of_nat (length code) < 2 ^ 30 ->
  StronglySorted Z.lt
    (code_analysis.jumpdest_targets (analyze get_op_table rev code)).
Proof.
  intros Hsize. unfold analyze. set (op_tbl := get_op_table rev).
  pose proof (analyze_with_length op_tbl code) as Hlen.
  rewrite analyze_with_reference in Hlen |- *.
  unfold reference_analysis in Hlen |- *.
  cbn [code_analysis.instrs code_analysis.jumpdest_targets] in Hlen |- *.
  rewrite length_app in Hlen. cbn [length] in Hlen.
  apply block_targets_sorted.
  change (2 ^ 30) with 1073741824 in Hsize. change (2 ^ 31) with 2147483648.
  lia.
Qed.
End Extra_jumpdests.

Lemma jumpdest_target_of_offset_witness :
  let code := [x60; x04; x56; x00; x5b; x5b; x00] in
  let op_tbl := example_op_table EVMC_ISTANBUL in
  let blocks := basic_blocks (decode code) in
  let a := analyze example_op_table EVMC_ISTANBUL code in
  code_analysis.jumpdest_offsets a !! 1%nat = Some 5
  /\ code_analysis.jumpdest_targets a !! 1%nat = Some 6
  /\ exists (j : nat) (o : op) (rest : list op),
       blocks !! j = Some (o :: rest)
       /\ op_code o = OP_JUMPDEST
       /\ op_offset o = 5
       /\ code !! Z.to_nat 5 = Some OP_JUMPDEST
       /\ 6 = Z.of_nat (begin_index op_tbl blocks j)
       /\ code_analysis.instrs a !! Z.to_nat 6
          = Some (beginblock op_tbl
                    (block_analysis.close
                       (summary_from op_tbl (block_analysis.make 0)
                          (o :: rest)))).
Proof.
  split; [reflexivity |]. split; [reflexivity |].
  apply (jumpdest_target_of_offset example_op_table EVMC_ISTANBUL
           [x60; x04; x56; x00; x5b; x5b; x00] 1 5 6);
    reflexivity.
Defined.

Lemma jumpdest_targets_ascending_witness :
  let code := [x5b; x5b; x00; x5b] in
  code_analysis.jumpdest_targets (analyze example_op_table EVMC_ISTANBUL code)
  = [0; 1; 3]
  /\ StronglySorted Z.lt
       (code_analysis.jumpdest_targets
          (analyze example_op_table EVMC_ISTANBUL code)).
Proof.
  split; [reflexivity |].
  apply (jumpdest_targets_ascending example_op_table EVMC_ISTANBUL
           [x5b; x5b; x00; x5b]).
  reflexivity.
Defined.

(** ** [find_jumpdest] on a sorted index, and after [analyze] *)

Section Extra_find_jumpdest.
Context {F R : Type} (get_op_table : R -> op_table F).

(** X10: on any analysis whose [jumpdest_offsets] are strictly ascending
    (the precondition of [std::lower_bound]) and whose [jumpdest_targets]
    has an entry for each of them, [find_jumpdest] returns the target at
    the position of the offset asked for when the offset is listed, and -1
    when it is not. So the result is -1 or the target of that very offset,
    and every read of the two vectors is in range. *)
Theorem find_jumpdest_sound (a : code_analysis.t F) (offset : Z) :
  StronglySorted Z.lt (code_analysis.jumpdest_offsets a) ->
  (length (code_analysis.jumpdest_offsets a)
   <= length (code_analysis.jumpdest_targets a))%nat ->
  (forall i : nat,
     code_analysis.jumpdest_offsets a !! i = Some offset ->
     exists t : Z,
       code_analysis.jumpdest_targets a !! i = Some t
       /\ find_jumpdest a offset = t)
  /\ (offset ∉ code_analysis.jumpdest_offsets a ->
      find_jumpdest a offset = -1)
  /\ (find_jumpdest a offset = -1
      \/ exists (i : nat) (t : Z),
           code_analysis.jumpdest_offsets a !! i = Some offset
           /\ code_analysis.jumpdest_targets a !! i = Some t
           /\ find_jumpdest a offset = t).
Proof.
  intros Hs Hlen.
  assert (Hhit : forall i : nat,
    code_analysis.jumpdest_offsets a !! i = Some offset ->
    exists t : Z,
      code_analysis.jumpdest_targets a !! i = Some t
      /\ find_jumpdest a offset = t).
  { intros i Hi. pose proof (lookup_lt_Some _ _ _ Hi) as Hlt.
    destruct (lookup_lt_is_Some_2 (code_analysis.jumpdest_targets a) i)
      as (t & Ht); [lia |].
    exists t. split; [exact Ht |].
    rewrite (find_jumpdest_hit a offset i Hs Hi).
    by apply list_lookup_total_correct. }
  split; [exact Hhit |]. split; [by apply find_jumpdest_miss |].
  destruct (decide (offset ∈ code_analysis.jumpdest_offsets a)) as [Hin | Hnot].
  - right. apply list_elem_of_lookup in Hin as (i & Hi).
    destruct (Hhit i Hi) as (t & Ht & Hfind). by exists i, t.
  - left. by apply find_jumpdest_miss.
Qed.

(** X9: after [analyze], an offset is a jump destination exactly when it is
    the offset of a JUMPDEST byte that lies outside every PUSH immediate;
    for any other offset [find_jumpdest] returns -1. A byte 0x5b inside the
    immediate of a PUSH is therefore no destination, and neither is an offset
    that is negative or past the end of the code. *)
Theorem find_jumpdest_valid_destination (rev : R) (code : list byte)
    (offset : Z) :
  let a := analyze get_op_table rev code in
  Z.of_nat (length code) < 2 ^ 30 ->
  (0 <= find_jumpdest a offset
   <-> exists i : nat,
         offset = Z.of_nat i
         /\ code !! i = Some OP_JUMPDEST
         /\ in_push_immediate code i = false)
  /\ (find_jumpdest a offset = -1 \/ 0 <= find_jumpdest a offset).
Proof.
  intros a Hsize.
  assert (Hs : StronglySorted Z.lt (code_analysis.jumpdest_offsets a))
    by (by apply analyze_with_offsets_sorted).
  pose proof (analyze_with_index_lengths (get_op_table rev) code) as Hlen.
  pose proof (analyze_with_targets (get_op_table rev) code Hsize) as Htargets.
  cbv zeta in Htargets. fold (analyze get_op_table rev code) in Hlen, Htargets.
  fold a in Hlen, Htargets.
  pose proof (jumpdest_offsets_spec get_op_table rev code offset Hsize) as Hspec.
  fold a in Hspec.
  destruct (decide (offset ∈ code_analysis.jumpdest_offsets a)) as [Hin | Hnot].
  - apply list_elem_of_lookup in Hin as (i & Hi).
    pose proof (lookup_lt_Some _ _ _ Hi) as Hlt. rewrite Hlen in Hlt.
    destruct (lookup_lt_is_Some_2 _ _ Hlt) as (t & Ht).
    pose proof (find_jumpdest_hit a offset i Hs Hi) as Hfind.
    rewrite (list_lookup_total_correct _ _ _ Ht) in Hfind.
    rewrite Forall_forall in Htargets.
    destruct (Htargets t (list_elem_of_lookup_2 _ _ _ Ht))
      as (j & b & _ & _ & Hpos).
    rewrite Hfind. split; [| right; lia].
    split; [| lia]. intros _. apply Hspec. by eapply list_elem_of_lookup_2.
  - rewrite (find_jumpdest_miss a offset Hs Hnot). split; [| by left].
    split; [lia |]. intros Hex. exfalso. apply Hnot. by apply Hspec.
Qed.
End Extra_find_jumpdest.

Lemma find_jumpdest_sound_witness :
  let a : code_analysis.t nat := code_analysis.mk [] 9 [2; 5; 8] [1; 4; 6; 7] in
  find_jumpdest a 5 = 4
  /\ find_jumpdest a 6 = -1
  /\ (forall i : nat,
        code_analysis.jumpdest_offsets a !! i = Some 5 ->
        exists t : Z,
          code_analysis.jumpdest_targets a !! i = Some t
          /\ find_jumpdest a 5 = t)
  /\ (5 ∉ code_analysis.jumpdest_offsets a -> find_jumpdest a 5 = -1)
  /\ (find_jumpdest a 5 = -1
      \/ exists (i : nat) (t : Z),
           code_analysis.jumpdest_offsets a !! i = Some 5
           /\ code_analysis.jumpdest_targets a !! i = Some t
           /\ find_jumpdest a 5 = t).
Proof.
  split; [reflexivity |]. split; [reflexivity |].
  apply (find_jumpdest_sound (code_analysis.mk [] 9 [2; 5; 8] [1; 4; 6; 7]) 5).
  - cbn [code_analysis.jumpdest_offsets].
    repeat constructor.
  - cbn. lia.
Defined.

Lemma find_jumpdest_valid_destination_witness :
  let code := [x60; x5b; x5b; x00] in
  let a := analyze example_op_table EVMC_ISTANBUL code in
  find_jumpdest a 1 = -1
  /\ find_jumpdest a 2 = 2
  /\ (0 <= find_jumpdest a 1
      <-> exists i : nat,
            1 = Z.of_nat i
            /\ code !! i = Some OP_JUMPDEST
            /\ in_push_immediate code i = false)
  /\ (find_jumpdest a 1 = -1 \/ 0 <= find_jumpdest a 1).
Proof.
  split; [reflexivity |]. split; [reflexivity |].
  apply (find_jumpdest_valid_destination example_op_table EVMC_ISTANBUL
           [x60; x5b; x5b; x00] 1).
  reflexivity.
Defined.

(** ** What follows a terminator *)

(** A terminator is the last opcode of its block, and another block
    follows. *)
Lemma basic_blocks_terminator_last (ops : list op) :
  forall (j k : nat) (b : list op) (o : op),
    basic_blocks ops !! j = Some b ->
    b !! k = Some o ->
    is_terminator (op_code o) = true ->
    S k = length b /\ is_Some (basic_blocks ops !! S j).
Proof.
  induction ops as [| o' ops IH]; intros j k b o Hj Hk Hterm.
  - destruct j as [| j]; [| done]. injection Hj as <-. done.
  - cbn [basic_blocks] in *.
    destruct (basic_blocks_nonempty ops) as (b1 & bs1 & Hb1).
    destruct (is_terminator (op_code o') || starts_with_jumpdest ops) eqn:Hclose.
    + destruct j as [| j].
      * injection Hj as <-. destruct k as [| k]; [| done].
        split; [done |]. rewrite Hb1. by eexists.
      * change (([o'] :: basic_blocks ops) !! S j) with (basic_blocks ops !! j)
          in Hj.
        by apply (IH j k b o).
    + apply orb_false_iff in Hclose as [Hnt _]. rewrite Hb1 in *.
      destruct j as [| j].
      * injection Hj as <-. destruct k as [| k].
        -- injection Hk as <-. congruence.
        -- change ((o' :: b1) !! S k) with (b1 !! k) in Hk.
           destruct (IH 0%nat k b1 o eq_refl Hk Hterm) as [Hlen Hnext].
           split; [cbn [length]; lia |]. exact Hnext.
      * change (((o' :: b1) :: bs1) !! S j) with ((b1 :: bs1) !! S j) in Hj.
        destruct (IH (S j) k b o Hj Hk Hterm) as [Hlen Hnext].
        split; [done |]. exact Hnext.
Qed.

Lemma terminator_opcodes (opcode : byte) :
  opcode ∈ [OP_JUMP; OP_JUMPI; OP_STOP; OP_RETURN; OP_REVERT; OP_SELFDESTRUCT] ->
  is_terminator opcode = true /\ is_opcode opcode OP_JUMPDEST = false.
Proof.
  intros H. repeat (apply elem_of_cons in H as [-> | H]; [done |]).
  inversion H.
Qed.

Section Extra_terminators.
Context {F R : Type} (get_op_table : R -> op_table F).

(** X11: the instruction of a JUMP, JUMPI, STOP, RETURN, REVERT or
    SELFDESTRUCT has the zero argument and is always followed, at the next
    index, by a BEGINBLOCK: a handler that goes on to the next instruction
    after a JUMPI whose condition is false enters a block through its
    header. *)
Theorem terminator_followed_by_beginblock (rev : R) (code : list byte)
    (j k : nat) (b : list op) (o : op) :
  let op_tbl := get_op_table rev in
  let blocks := basic_blocks (decode code) in
  let instrs := code_analysis.instrs (analyze get_op_table rev code) in
  let index := (begin_index op_tbl blocks j + (1 + body_index b k))%nat in
  blocks !! j = Some b ->
  b !! k = Some o ->
  op_code o ∈ [OP_JUMP; OP_JUMPI; OP_STOP; OP_RETURN; OP_REVERT;
               OP_SELFDESTRUCT] ->
  instrs !! index
  = Some (instruction.make (op_table_entry.fn (op_tbl (op_code o))))
  /\ exists info : block_info.t,
       instrs !! S index = Some (beginblock op_tbl info).
Proof.
  intros op_tbl blocks instrs index Hj Hk Hop.
  apply terminator_opcodes in Hop as [Hterm Hjd].
  destruct (basic_blocks_terminator_last _ _ _ _ _ Hj Hk Hterm)
    as [Hlast (b' & Hnext)].
  fold blocks in Hnext.
  split.
  - subst instrs index blocks. unfold analyze. fold op_tbl.
    rewrite (analyze_with_instr_lookup op_tbl code j k b o Hj Hk Hjd).
    unfold instr_of. apply switch_case_terminator in Hterm. rewrite Hterm.
    reflexivity.
  - assert (Hindex : S index = begin_index op_tbl blocks (S j)).
    { subst index. unfold begin_index.
      rewrite (take_S_r _ _ _ Hj), flat_map_app, length_app.
      cbn [flat_map]. rewrite app_nil_r. unfold block_instrs. cbn [length].
      rewrite block_body_length_exact. unfold body_index.
      assert (Hcount :
        length (filter (fun o => is_jumpdest o = false) b)
        = S (length (filter (fun o => is_jumpdest o = false) (take k b)))).
      { rewrite <- (take_drop_middle _ _ _ Hk) at 1.
        rewrite (drop_ge b (S k)) by lia.
        rewrite filter_app, length_app, filter_cons.
        rewrite decide_True by exact Hjd. rewrite filter_nil.
        cbn [length]. lia. }
      rewrite Hcount. lia. }
    rewrite Hindex. subst instrs. unfold analyze. fold op_tbl.
    rewrite analyze_with_reference. unfold reference_analysis.
    cbn [code_analysis.instrs]. fold blocks.
    eexists. rewrite lookup_app_l by (by eapply begin_index_lt).
    by apply begin_index_lookup.
Qed.
End Extra_terminators.

Lemma terminator_followed_by_beginblock_witness :
  let code := [x60; x01; x60; x00; x57; x01] in
  let op_tbl := example_op_table EVMC_ISTANBUL in
  let instrs :=
    code_analysis.instrs (analyze example_op_table EVMC_ISTANBUL code) in
  instrs !! 3%nat = Some (instruction.make (fn_opcode x57))
  /\ exists info : block_info.t,
       instrs !! 4%nat = Some (beginblock op_tbl info).
Proof.
  apply (terminator_followed_by_beginblock example_op_table EVMC_ISTANBUL
           [x60; x01; x60; x00; x57; x01] 0 2
           [mk_op 0 x60 [x01]; mk_op 2 x60 [x00]; mk_op 4 x57 []]
           (mk_op 4 x57 [])); [reflexivity | reflexivity |].
  apply list_elem_of_further, list_elem_of_here.
Defined.

(** ** The first call of [execute] *)

Section Extra_execute.
Context {F R : Type} (call : @handler_semantics F)
  (get_op_table : R -> op_table F).

Lemma analyze_first_instr (rev : R) (code : list byte) :
  exists info : block_info.t,
    code_analysis.instrs (analyze get_op_table rev code) !! 0%nat
    = Some (beginblock (get_op_table rev) info).
Proof.
  unfold analyze. rewrite analyze_with_reference. unfold reference_analysis.
  cbn [code_analysis.instrs].
  destruct (basic_blocks_nonempty (decode code)) as (b & bs & ->).
  eexists. reflexivity.
Qed.

(** X12: for every code, the first handler that [execute] calls is the
    BEGINBLOCK handler, on the instruction at index 0 and on the fresh state
    of the message; the run goes on from the pointer and the state that this
    call returns. If the call returns the null pointer, no other handler
    runs and the result is assembled from the state it left. *)
Theorem execute_first_call (fuel : nat) (rev : R) (msg : evmc_message.t)
    (code : list byte) :
  let a := analyze get_op_table rev code in
  let first :=
    call (op_table_entry.fn (get_op_table rev OPX_BEGINBLOCK)) a 0%nat
      (execution_state.make msg) in
  execute_state call get_op_table (S fuel) rev msg code
  = dispatch call a fuel (fst first) (snd first)
  /\ (fst first = None ->
      execute call get_op_table (S fuel) rev msg code
      = Some (make_result (snd first))).
Proof.
  intros a first.
  destruct (analyze_first_instr rev code) as (info & Hins).
  fold a in Hins.
  assert (Hstate : execute_state call get_op_table (S fuel) rev msg code
                   = dispatch call a fuel (fst first) (snd first)).
  { unfold execute_state. fold a. cbn [dispatch]. rewrite Hins.
    cbn [beginblock instruction.fn]. fold first. destruct first as [next state]. reflexivity. }
  split; [exact Hstate |].
  intros Hnull. unfold execute. rewrite Hstate, Hnull.
  destruct fuel; reflexivity.
Qed.
End Extra_execute.
